(** * Zeeky kernel service: intent classification, entity extraction,
      plugin registry and routing (services/kernel/main.py)

    The Python module is embedded function by function.  A Python [str] is
    a sequence of Unicode code points; the process-wide [plugins_registry]
    dict is an insertion-ordered association list threaded through a small
    state-and-exception monad; [datetime.now()] reads a wall clock that is
    an explicit input of the health model.  The [async] handlers never
    suspend and are embedded as plain computations; the calls of [logger]
    write to the log only and are left out. *)

From Stdlib Require Import List NArith ZArith QArith Bool String Ascii Lia Sorted.
Import ListNotations.
Close Scope Q_scope.

Set Implicit Arguments.

(* ===================================================================== *)
(** * Python strings *)
(* ===================================================================== *)

(** A code point, and a [str] as the list of its code points. *)
Definition char := N.
Definition pystr := list char.

(** A literal of the source, written as a Rocq string of ASCII characters. *)
Definition py (s : string) : pystr := map N_of_ascii (list_ascii_of_string s).

(** [a == b] on [str]. *)
Fixpoint str_eqb (a b : pystr) : bool :=
  match a, b with
  | [], [] => true
  | x :: a', y :: b' => N.eqb x y && str_eqb a' b'
  | _, _ => false
  end.

(** [x in l] for a list [l] of [str]: some element is [==] to [x]. *)
Definition str_in (x : pystr) (l : list pystr) : bool :=
  existsb (str_eqb x) l.

(** [t.startswith(w)]. *)
Fixpoint startswith (w t : pystr) : bool :=
  match w, t with
  | [], _ => true
  | _ :: _, [] => false
  | x :: w', y :: t' => N.eqb x y && startswith w' t'
  end.

(** [w in t] for two [str]: [w] occurs in [t] at some offset. *)
Fixpoint contains (w t : pystr) : bool :=
  startswith w t ||
  match t with
  | [] => false
  | _ :: t' => contains w t'
  end.

(** [any(word in text for word in words)]. *)
Definition any_word_in (words : list pystr) (text : pystr) : bool :=
  existsb (fun word => contains word text) words.

(** Lower-casing of the ASCII range, the part of [str.lower] that the
    examples of this file exercise. *)
Definition ascii_lower_char (c : char) : char :=
  if (65 <=? c)%N && (c <=? 90)%N then (c + 32)%N else c.

Definition ascii_lower (s : pystr) : pystr := map ascii_lower_char s.

Definition is_ascii (s : pystr) : Prop := Forall (fun c => (c < 128)%N) s.

(** What is used of [str.lower] when a concrete text is evaluated: on a
    text of ASCII characters it lower-cases the letters A-Z and leaves
    every other character as it is. *)
Definition LowerOnAscii (lower : pystr -> pystr) : Prop :=
  forall s, is_ascii s -> lower s = ascii_lower s.

(** [str.isspace] on one code point, the test [str.split()] uses to
    separate tokens. *)
Definition isspace (c : char) : bool :=
  ((9 <=? c) && (c <=? 13) || (28 <=? c) && (c <=? 32) ||
   (c =? 133) || (c =? 160) || (c =? 5760) ||
   (8192 <=? c) && (c <=? 8202) ||
   (c =? 8232) || (c =? 8233) || (c =? 8239) || (c =? 8287) ||
   (c =? 12288))%N.

(** [text.split()]: the maximal runs of non-whitespace characters, in
    order; [cur] is the run being read. *)
Fixpoint split_from (cur : pystr) (s : pystr) : list pystr :=
  match s with
  | [] => match cur with [] => [] | _ :: _ => [cur] end
  | c :: s' =>
      if isspace c then
        match cur with
        | [] => split_from [] s'
        | _ :: _ => cur :: split_from [] s'
        end
      else split_from (cur ++ [c]) s'
  end.

Definition split (text : pystr) : list pystr := split_from [] text.

(* ===================================================================== *)
(** * Pydantic models *)
(* ===================================================================== *)

(** A value of type [Any] in a request body. *)
#[local] Unset Elimination Schemes.
Inductive Any : Type :=
| ANone
| ABool (b : bool)
| AInt (z : Z)
| AStr (s : pystr)
| AList (l : list Any)
| ADict (d : list (pystr * Any)).
#[local] Set Elimination Schemes.

Record IntentRequest := {
  text : pystr;
  context : option (list (pystr * Any));
  user_id : option pystr;
  session_id : option pystr
}.

(** One entity, the dict [{"type": .., "value": .., "start": .., "end": ..}]. *)
Record Entity := {
  ent_type : pystr;
  ent_value : pystr;
  ent_start : nat;
  ent_end : nat
}.

Record IntentResponse := {
  intent : pystr;
  confidence : Q;
  entities : list Entity;
  response : pystr;
  plugin_id : option pystr
}.

Record PluginInfo := {
  id : pystr;
  name : pystr;
  version : pystr;
  description : pystr;
  capabilities : list pystr;
  status : pystr
}.

Record PluginRegistration := {
  reg_id : pystr;
  reg_name : pystr;
  reg_version : pystr;
  reg_description : pystr;
  reg_capabilities : list pystr;
  reg_endpoint : pystr
}.

(* ===================================================================== *)
(** * Classifier and entity extractor *)
(* ===================================================================== *)

Definition music_words : list pystr :=
  [py "play"; py "music"; py "song"; py "album"].
Definition calendar_words : list pystr :=
  [py "schedule"; py "meeting"; py "calendar"; py "appointment"].
Definition note_words : list pystr :=
  [py "note"; py "remember"; py "write"; py "save"].
Definition weather_words : list pystr :=
  [py "weather"; py "temperature"; py "forecast"].
Definition news_words : list pystr :=
  [py "news"; py "headlines"; py "update"].

Definition media_words : list pystr := [py "music"; py "song"; py "album"].
Definition event_words : list pystr := [py "meeting"; py "appointment"].

Section Lower.

(** [str.lower], whose Unicode case table is not part of the module. *)
Variable lower : pystr -> pystr.

Definition classify_intent (text : pystr) : pystr :=
  let text_lower := lower text in
  if any_word_in music_words text_lower then py "music_control"
  else if any_word_in calendar_words text_lower then py "calendar_management"
  else if any_word_in note_words text_lower then py "note_taking"
  else if any_word_in weather_words text_lower then py "weather_query"
  else if any_word_in news_words text_lower then py "news_query"
  else py "general_query".

(** The body of [for i, word in enumerate(words)], from index [i] on;
    [entities] is the list appended to. *)
Fixpoint extract_loop (i : nat) (words : list pystr) (entities : list Entity)
  : list Entity :=
  match words with
  | [] => entities
  | word :: rest =>
      let entities' :=
        if str_in (lower word) media_words then
          entities ++ [{| ent_type := py "media_type"; ent_value := word;
                          ent_start := i; ent_end := i + 1 |}]
        else if str_in (lower word) event_words then
          entities ++ [{| ent_type := py "event_type"; ent_value := word;
                          ent_start := i; ent_end := i + 1 |}]
        else entities in
      extract_loop (S i) rest entities'
  end.

Definition extract_entities (text : pystr) : list Entity :=
  let entities := [] in
  let words := split text in
  extract_loop 0 words entities.

End Lower.

(* ===================================================================== *)
(** * Module state, exceptions and the handler monad *)
(* ===================================================================== *)

(** [plugins_registry: Dict[str, PluginInfo]]: the items of the dict in
    iteration order, which for a Python dict is the order in which the keys
    were first inserted. *)
Definition Registry := list (pystr * PluginInfo).

Inductive exn : Type :=
| Exception (msg : pystr)
| HTTPException (status_code : nat) (detail : pystr).

Inductive result (A : Type) : Type :=
| Returned (a : A)
| Raised (e : exn).
Arguments Returned {A} a.
Arguments Raised {A} e.

(** A computation that reads and writes the registry and either returns or
    raises; a raised exception leaves the registry as it was at the raise. *)
Definition M (A : Type) : Type := Registry -> result A * Registry.

Definition ret {A} (a : A) : M A := fun s => (Returned a, s).

Definition bind {A B} (m : M A) (f : A -> M B) : M B :=
  fun s =>
    match m s with
    | (Returned a, s') => f a s'
    | (Raised e, s') => (Raised e, s')
    end.

Definition raise {A} (e : exn) : M A := fun s => (Raised e, s).

(** [try: body  except Exception as e: handler e]. *)
Definition try_except {A} (body : M A) (handler : exn -> M A) : M A :=
  fun s =>
    match body s with
    | (Returned a, s') => (Returned a, s')
    | (Raised e, s') => handler e s'
    end.

Definition get_registry : M Registry := fun s => (Returned s, s).
Definition put_registry (s' : Registry) : M unit := fun _ => (Returned tt, s').

Declare Scope handler_scope.
Delimit Scope handler_scope with handler.
Notation "x <- m ;; k" := (bind m (fun x => k))
  (at level 61, m at next level, right associativity) : handler_scope.
Notation "m ;; k" := (bind m (fun _ => k))
  (at level 61, right associativity) : handler_scope.
Local Open Scope handler_scope.

Definition eval {A} (m : M A) (s : Registry) : result A := fst (m s).
Definition exec {A} (m : M A) (s : Registry) : Registry := snd (m s).

(** [d[k] = v]: the value of an existing key is replaced where the key
    stands; a new key goes to the end. *)
Fixpoint dict_setitem (k : pystr) (v : PluginInfo) (d : Registry) : Registry :=
  match d with
  | [] => [(k, v)]
  | (k', v') :: d' =>
      if str_eqb k k' then (k', v) :: d'
      else (k', v') :: dict_setitem k v d'
  end.

(** [d.get(k)]. *)
Fixpoint dict_get (k : pystr) (d : Registry) : option PluginInfo :=
  match d with
  | [] => None
  | (k', v') :: d' => if str_eqb k k' then Some v' else dict_get k d'
  end.

(** The keys of a dict are pairwise different. *)
Definition wf_registry (d : Registry) : Prop := NoDup (map fst d).

(* ===================================================================== *)
(** * Registry endpoints, router and response generator *)
(* ===================================================================== *)

Definition get_plugins : M (list PluginInfo) :=
  registry <- get_registry ;;
  ret (map snd registry).

Definition register_plugin (plugin : PluginRegistration) : M PluginInfo :=
  try_except
    (let plugin_info :=
       {| id := reg_id plugin;
          name := reg_name plugin;
          version := reg_version plugin;
          description := reg_description plugin;
          capabilities := reg_capabilities plugin;
          status := py "active" |} in
     registry <- get_registry ;;
     put_registry (dict_setitem (reg_id plugin) plugin_info registry) ;;
     ret plugin_info)
    (fun e => raise (HTTPException 500 (py "Failed to register plugin"))).

(** The loop of [route_to_plugin] over [plugins_registry.items()]. *)
Fixpoint route_loop (intent : pystr) (items : Registry) : option pystr :=
  match items with
  | [] => None
  | (plugin_id, plugin) :: rest =>
      if str_in intent (capabilities plugin) then Some plugin_id
      else route_loop intent rest
  end.

Definition route_to_plugin (intent : pystr) (entities : list Entity)
  : M (option pystr) :=
  registry <- get_registry ;;
  ret (route_loop intent registry).

(** [if plugin_id:] takes the first branch for a [str] that is not empty;
    [None] and the empty [str] are both false. *)
Definition generate_response (intent : pystr) (entities : list Entity)
    (plugin_id : option pystr) : M pystr :=
  match plugin_id with
  | Some (c :: plugin_id') =>
      ret (py "Processing " ++ intent ++ py " using plugin " ++ c :: plugin_id')
  | Some [] | None =>
      ret (py "I understand you want to " ++ intent ++
           py ". Let me help you with that.")
  end.

Section Handlers.

Variable lower : pystr -> pystr.

Definition process_intent (request : IntentRequest) : M IntentResponse :=
  try_except
    (let intent := classify_intent lower (text request) in
     let entities := extract_entities lower (text request) in
     plugin_id <- route_to_plugin intent entities ;;
     response <- generate_response intent entities plugin_id ;;
     ret {| intent := intent;
            confidence := 0.8%Q;
            entities := entities;
            response := response;
            plugin_id := plugin_id |})
    (fun e => raise (HTTPException 500 (py "Internal server error"))).

End Handlers.

(* ===================================================================== *)
(** * The routes of the application over the registry *)
(* ===================================================================== *)

(** A request to one of the three routes of [app] that read or write the
    registry: GET /plugins, POST /plugins and POST /intent.  (GET /health
    reads the clock only.) *)
Inductive Request : Type :=
| GET_plugins
| POST_plugins (plugin : PluginRegistration)
| POST_intent (request : IntentRequest).

Inductive Reply : Type :=
| PluginList (plugins : list PluginInfo)
| Registered (plugin_info : PluginInfo)
| Processed (r : IntentResponse).

Section App.

Variable lower : pystr -> pystr.

(** The handler that [app] calls for a request. *)
Definition serve (req : Request) : M Reply :=
  match req with
  | GET_plugins => plugins <- get_plugins ;; ret (PluginList plugins)
  | POST_plugins plugin =>
      plugin_info <- register_plugin plugin ;; ret (Registered plugin_info)
  | POST_intent request =>
      r <- process_intent lower request ;; ret (Processed r)
  end.

(** The registry after the requests are served one after the other; a
    request that raises leaves the registry to the next one as it is. *)
Fixpoint serve_all (reqs : list Request) (s : Registry) : Registry :=
  match reqs with
  | [] => s
  | req :: rest => serve_all rest (exec (serve req) s)
  end.

End App.

(* ===================================================================== *)
(** * Health endpoint *)
(* ===================================================================== *)

Module Health.

(** A [datetime] as its count of microseconds, a [timedelta] likewise. *)
Definition datetime := Z.
Definition timedelta := Z.

(** The wall clock of one process run: [clock n] is what the [n]-th call
    of [datetime.now()] returns, counting from 0. *)
Definition Clock := nat -> datetime.

Record HealthResponse := {
  status : pystr;
  timestamp : datetime;
  version : pystr;
  uptime : Q
}.

(** [d.total_seconds()]: the count of microseconds over 10^6.  Python
    returns this quotient rounded to a float, and the rounding keeps the
    sign and the order of the quotients. *)
Definition total_seconds (d : timedelta) : Q := Qmake d 1000000.

Section Run.

Variable now : Clock.

(** Read when the module is loaded: the first reading of the clock. *)
Definition start_time : datetime := now 0%nat.

(** One call of the handler; [n] counts the readings of the clock made so
    far, and the handler makes two more. *)
Definition health_check (n : nat) : HealthResponse * nat :=
  let uptime := total_seconds (now n - start_time)%Z in
  ({| status := py "healthy";
      timestamp := now (S n);
      version := py "1.0.0";
      uptime := uptime |}, S (S n)).

(** [k] successive calls of the handler, the first one after [n] readings. *)
Fixpoint health_calls (k : nat) (n : nat) : list HealthResponse :=
  match k with
  | O => []
  | S k' => let (r, n') := health_check n in r :: health_calls k' n'
  end.

(** The responses to the first [k] calls of GET /health of a run. *)
Definition health_run (k : nat) : list HealthResponse := health_calls k 1.

End Run.

(** Successive readings of the clock never go back. *)
Definition monotone_clock (now : Clock) : Prop :=
  forall n m, (n <= m)%nat -> (now n <= now m)%Z.

(** A clock that is set back by ten seconds after the module is loaded and
    by ten more seconds two readings later. *)
Definition stepped_back_clock : Clock :=
  fun n => match n with
           | 0%nat => 30000000%Z
           | 1%nat | 2%nat => 20000000%Z
           | _ => 10000000%Z
           end.

(** A clock that advances by one second at each reading. *)
Definition ticking_clock : Clock := fun n => (Z.of_nat n * 1000000)%Z.

End Health.

(* ===================================================================== *)
(** * Notions used to state the properties *)
(* ===================================================================== *)

(** [w] occurs in [t] as a contiguous substring. *)
Definition substring (w t : pystr) : Prop :=
  exists pre post, t = pre ++ w ++ post.

(** Some word of the list occurs in the text as a contiguous substring. *)
Definition some_word_occurs (words : list pystr) (t : pystr) : Prop :=
  exists w, In w words /\ substring w t.

(** [e] is the entity record of the token [tok] found at index [i]: the
    lower-cased whole token is a word of one of the two vocabularies, which
    gives the type; the value is the token as it stands in the text. *)
Definition entity_of_token (lower : pystr -> pystr) (i : nat) (tok : pystr)
    (e : Entity) : Prop :=
  ((In (lower tok) media_words /\ ent_type e = py "media_type") \/
   (In (lower tok) event_words /\ ent_type e = py "event_type")) /\
  ent_value e = tok /\ ent_start e = i /\ ent_end e = i + 1.

(** The plugin stored in the registry declares the capability. *)
Definition declares (intent : pystr) (plugin : PluginInfo) : Prop :=
  In intent (capabilities plugin).

(** The number of entries of the registry stored under a key. *)
Definition entries_under (k : pystr) (d : Registry) : nat :=
  List.length (filter (fun kv => str_eqb k (fst kv)) d).

(** The record that a registration request stands for once stored. *)
Definition info_of (plugin : PluginRegistration) : PluginInfo :=
  {| id := reg_id plugin; name := reg_name plugin;
     version := reg_version plugin; description := reg_description plugin;
     capabilities := reg_capabilities plugin; status := py "active" |}.

(** The registration requests among the requests of a run, in order. *)
Fixpoint registrations (reqs : list Request) : list PluginRegistration :=
  match reqs with
  | [] => []
  | POST_plugins plugin :: rest => plugin :: registrations rest
  | _ :: rest => registrations rest
  end.

(** The last registration request made under the id [k], if there is one. *)
Fixpoint last_registration (k : pystr) (ps : list PluginRegistration)
  : option PluginRegistration :=
  match ps with
  | [] => None
  | p :: rest =>
      match last_registration k rest with
      | Some p' => Some p'
      | None => if str_eqb k (reg_id p) then Some p else None
      end
  end.

(** The ids of a list in the order of their first occurrence, after the
    ids [seen] already there. *)
Fixpoint first_occurrences (seen ids : list pystr) : list pystr :=
  match ids with
  | [] => seen
  | k :: rest =>
      first_occurrences (if str_in k seen then seen else seen ++ [k]) rest
  end.

(** What holds of every registry a run can reach: the keys are pairwise
    different, each record stands under its own id and is active. *)
Definition registry_ok (d : Registry) : Prop :=
  wf_registry d /\
  forall k info, In (k, info) d -> id info = k /\ status info = py "active".

(** The six labels of the classifier. *)
Definition intent_labels : list pystr :=
  [py "music_control"; py "calendar_management"; py "note_taking";
   py "weather_query"; py "news_query"; py "general_query"].

(** What of an entity does not depend on the letter case of its token. *)
Definition shape (e : Entity) : pystr * nat * nat :=
  (ent_type e, ent_start e, ent_end e).

(* ===================================================================== *)
(** * Facts about strings *)
(* ===================================================================== *)

Lemma str_eqb_eq (a b : pystr) : str_eqb a b = true <-> a = b.
Proof.
  revert b; induction a as [|x a IH]; intros [|y b]; simpl;
    try (split; [discriminate | discriminate]); try tauto.
  rewrite andb_true_iff, N.eqb_eq, IH. split.
  - intros [-> ->]; reflexivity.
  - intros E; injection E; auto.
Qed.

Lemma str_in_In (x : pystr) (l : list pystr) : str_in x l = true <-> In x l.
Proof.
  unfold str_in. rewrite existsb_exists. split.
  - intros (y & Hy & E). apply str_eqb_eq in E. subst; assumption.
  - intros H. exists x. split; [assumption | apply str_eqb_eq; reflexivity].
Qed.

Lemma startswith_app (w t : pystr) :
  startswith w t = true <-> exists post, t = w ++ post.
Proof.
  revert t; induction w as [|x w IH]; intros t; simpl.
  - split; [intros _; exists t; reflexivity | reflexivity].
  - destruct t as [|y t].
    + split; [discriminate | intros [post E]; discriminate].
    + rewrite andb_true_iff, N.eqb_eq, IH. split.
      * intros [-> [post ->]]. exists post; reflexivity.
      * intros [post E]. injection E as -> ->. split; [reflexivity | eauto].
Qed.

Lemma contains_substring (w t : pystr) :
  contains w t = true <-> substring w t.
Proof.
  unfold substring. induction t as [|y t IH].
  - simpl. rewrite orb_false_r, startswith_app. split.
    + intros [post E]. exists [], post. exact E.
    + intros (pre & post & E). destruct pre; [eauto | discriminate].
  - cbn [contains]. rewrite orb_true_iff, startswith_app, IH. split.
    + intros [[post E] | (pre & post & E)].
      * exists [], post. exact E.
      * exists (y :: pre), post. simpl. rewrite E. reflexivity.
    + intros (pre & post & E). destruct pre as [|z pre].
      * left. exists post. exact E.
      * right. injection E as _ E. eauto.
Qed.

Lemma any_word_in_occurs (words : list pystr) (t : pystr) :
  any_word_in words t = true <-> some_word_occurs words t.
Proof.
  unfold any_word_in, some_word_occurs. rewrite existsb_exists.
  split; intros (w & Hw & H); exists w; (split; [assumption|]);
    apply contains_substring; assumption.
Qed.

Lemma any_word_in_not_occurs (words : list pystr) (t : pystr) :
  any_word_in words t = false <-> ~ some_word_occurs words t.
Proof.
  rewrite <- any_word_in_occurs. destruct (any_word_in words t); split;
    congruence.
Qed.

Lemma is_ascii_check (s : pystr) :
  forallb (fun c => (c <? 128)%N) s = true -> is_ascii s.
Proof.
  intros H. apply Forall_forall. intros c Hc.
  rewrite forallb_forall in H. apply N.ltb_lt. auto.
Qed.

Lemma all_ascii_check (l : list pystr) :
  forallb (forallb (fun c => (c <? 128)%N)) l = true -> Forall is_ascii l.
Proof.
  intros H. apply Forall_forall. intros s Hs.
  rewrite forallb_forall in H. apply is_ascii_check. auto.
Qed.

(** The tokens of [split] are not empty and hold no whitespace, and put
    together they are the text without its whitespace. *)
Lemma split_from_tokens (s : pystr) :
  forall cur,
    forallb (fun c => negb (isspace c)) cur = true ->
    Forall (fun tok => tok <> [] /\
                       forallb (fun c => negb (isspace c)) tok = true)
           (split_from cur s).
Proof.
  induction s as [|c s IH]; intros cur Hcur; simpl.
  - destruct cur; constructor; [split; [discriminate | exact Hcur] | constructor].
  - destruct (isspace c) eqn:E.
    + destruct cur as [|x cur].
      * apply IH. reflexivity.
      * constructor; [split; [discriminate | exact Hcur] | apply IH; reflexivity].
    + apply IH. rewrite forallb_app, Hcur. simpl. rewrite E. reflexivity.
Qed.

Lemma split_from_concat (s : pystr) :
  forall cur,
    List.concat (split_from cur s) = cur ++ filter (fun c => negb (isspace c)) s.
Proof.
  induction s as [|c s IH]; intros cur; simpl.
  - destruct cur; simpl; rewrite ?app_nil_r; reflexivity.
  - destruct (isspace c) eqn:E; simpl.
    + destruct cur as [|x cur]; simpl; rewrite IH; reflexivity.
    + rewrite IH, <- app_assoc. reflexivity.
Qed.

Lemma split_tokens (text : pystr) :
  Forall (fun tok => tok <> [] /\
                     forallb (fun c => negb (isspace c)) tok = true)
         (split text) /\
  List.concat (split text) = filter (fun c => negb (isspace c)) text.
Proof.
  split; [apply split_from_tokens; reflexivity | apply split_from_concat].
Qed.

Example split_runs_of_whitespace :
  split (py "  play   the music now ") =
    [py "play"; py "the"; py "music"; py "now"].
Proof. reflexivity. Qed.

(* ===================================================================== *)
(** * The classifier *)
(* ===================================================================== *)

(** C1.  [classify_intent] lower-cases the text and returns the first of the
    six categories, in the order music_control, calendar_management,
    note_taking, weather_query, news_query, whose keyword list has a word
    that occurs as a contiguous substring of the lower-cased text, and
    general_query when no keyword of any list occurs; the earliest
    category wins when several match, as for "remember to play music". *)
Theorem classify_intent_first_match (lower : pystr -> pystr) (text : pystr) :
  let t := lower text in
  (some_word_occurs music_words t ->
     classify_intent lower text = py "music_control") /\
  (~ some_word_occurs music_words t ->
   some_word_occurs calendar_words t ->
     classify_intent lower text = py "calendar_management") /\
  (~ some_word_occurs music_words t ->
   ~ some_word_occurs calendar_words t ->
   some_word_occurs note_words t ->
     classify_intent lower text = py "note_taking") /\
  (~ some_word_occurs music_words t ->
   ~ some_word_occurs calendar_words t ->
   ~ some_word_occurs note_words t ->
   some_word_occurs weather_words t ->
     classify_intent lower text = py "weather_query") /\
  (~ some_word_occurs music_words t ->
   ~ some_word_occurs calendar_words t ->
   ~ some_word_occurs note_words t ->
   ~ some_word_occurs weather_words t ->
   some_word_occurs news_words t ->
     classify_intent lower text = py "news_query") /\
  (~ some_word_occurs music_words t ->
   ~ some_word_occurs calendar_words t ->
   ~ some_word_occurs note_words t ->
   ~ some_word_occurs weather_words t ->
   ~ some_word_occurs news_words t ->
     classify_intent lower text = py "general_query") /\
  (LowerOnAscii lower ->
     some_word_occurs note_words (lower (py "remember to play music")) /\
     classify_intent lower (py "remember to play music") = py "music_control").
Proof.
  intros t. unfold classify_intent. fold t.
  repeat split; intros;
    repeat match goal with
      | H : some_word_occurs _ _ |- _ => apply any_word_in_occurs in H
      | H : ~ some_word_occurs _ _ |- _ => apply any_word_in_not_occurs in H
      end;
    repeat match goal with
      | H : any_word_in _ t = _ |- _ => rewrite H; clear H
      end;
    try reflexivity.
  - apply any_word_in_occurs.
    rewrite (H (py "remember to play music"));
      [reflexivity | apply is_ascii_check; reflexivity].
  - rewrite (H (py "remember to play music"));
      [reflexivity | apply is_ascii_check; reflexivity].
Qed.

Lemma classify_intent_first_match_witness :
  some_word_occurs music_words (ascii_lower (py "Play some jazz")) /\
  classify_intent ascii_lower (py "Play some jazz") = py "music_control".
Proof.
  assert (H : some_word_occurs music_words (ascii_lower (py "Play some jazz")))
    by (apply any_word_in_occurs; reflexivity).
  split; [exact H |].
  exact (proj1 (classify_intent_first_match ascii_lower (py "Play some jazz")) H).
Defined.

(* ===================================================================== *)
(** * The entity extractor *)
(* ===================================================================== *)

Lemma vocabularies_disjoint (w : pystr) :
  In w media_words -> In w event_words -> False.
Proof.
  unfold media_words, event_words. simpl.
  intros [<- | [<- | [<- | []]]] [H | [H | []]]; discriminate H.
Qed.

Section Extractor.

Variable lower : pystr -> pystr.

Lemma extract_loop_acc (words : list pystr) :
  forall i acc,
    extract_loop lower i words acc = acc ++ extract_loop lower i words [].
Proof.
  induction words as [|word rest IH]; intros i acc; cbn [extract_loop app].
  - rewrite app_nil_r. reflexivity.
  - destruct (str_in (lower word) media_words);
      [| destruct (str_in (lower word) event_words)].
    + rewrite (IH _ (acc ++ [_])), (IH _ [_]), app_assoc. reflexivity.
    + rewrite (IH _ (acc ++ [_])), (IH _ [_]), app_assoc. reflexivity.
    + apply IH.
Qed.

(** What one round of the loop appends for the token [word] at index [i]. *)
Lemma extract_loop_cons (i : nat) (word : pystr) (rest : list pystr) :
  exists head,
    extract_loop lower i (word :: rest) [] =
      head ++ extract_loop lower (S i) rest [] /\
    (forall e, In e head <-> entity_of_token lower i word e) /\
    (head = [] \/ exists e, head = [e] /\ ent_start e = i).
Proof.
  cbn [extract_loop app]. unfold entity_of_token.
  destruct (str_in (lower word) media_words) eqn:Hm;
    [| destruct (str_in (lower word) event_words) eqn:He].
  - eexists [_]. split; [apply extract_loop_acc |]. split.
    + intros e. cbn [In]. split.
      * intros [<- | []]. cbn [ent_type ent_value ent_start ent_end].
        apply str_in_In in Hm. auto 10.
      * intros ([[_ Ht] | [Hev _]] & Hv & Hs & Hn).
        -- left. destruct e; simpl in *; subst; reflexivity.
        -- apply str_in_In in Hm. destruct (vocabularies_disjoint Hm Hev).
    + right. eexists. split; reflexivity.
  - eexists [_]. split; [apply extract_loop_acc |]. split.
    + intros e. cbn [In]. split.
      * intros [<- | []]. cbn [ent_type ent_value ent_start ent_end].
        apply str_in_In in He. auto 10.
      * intros ([[Hmd _] | [_ Ht]] & Hv & Hs & Hn).
        -- apply str_in_In in Hmd. congruence.
        -- left. destruct e; simpl in *; subst; reflexivity.
    + right. eexists. split; reflexivity.
  - exists []. split; [reflexivity |]. split; [| left; reflexivity].
    intros e. cbn [In]. split; [tauto |].
    intros ([[H _] | [H _]] & _); apply str_in_In in H; congruence.
Qed.

Lemma In_extract_loop (words : list pystr) :
  forall i e,
    In e (extract_loop lower i words []) <->
    exists j tok, nth_error words j = Some tok /\
                  entity_of_token lower (i + j) tok e.
Proof.
  induction words as [|word rest IH]; intros i e.
  - simpl. split; [tauto |]. intros ([|j] & tok & H & _); discriminate H.
  - destruct (extract_loop_cons i word rest) as (head & -> & Hhead & _).
    rewrite in_app_iff, Hhead, IH. split.
    + intros [H | (j & tok & Hj & H)].
      * exists 0, word. rewrite Nat.add_0_r. auto.
      * exists (S j), tok. rewrite Nat.add_succ_r. auto.
    + intros ([|j] & tok & Hj & H); simpl in Hj.
      * injection Hj as <-. rewrite Nat.add_0_r in H. auto.
      * right. exists j, tok. rewrite Nat.add_succ_r in H. auto.
Qed.

Lemma extract_loop_sorted (words : list pystr) :
  forall i, StronglySorted lt (map ent_start (extract_loop lower i words [])).
Proof.
  induction words as [|word rest IH]; intros i.
  - constructor.
  - destruct (extract_loop_cons i word rest) as (head & -> & _ & Hhead).
    destruct Hhead as [-> | (e & -> & Hs)]; simpl; [apply IH |].
    constructor; [apply IH |].
    apply Forall_forall. intros n Hn. apply in_map_iff in Hn.
    destruct Hn as (e' & <- & He').
    apply In_extract_loop in He'.
    destruct He' as (j & tok & _ & _ & _ & Hs' & _). lia.
Qed.

Lemma extract_loop_ext (lower' : pystr -> pystr) (words : list pystr) :
  Forall (fun w => lower w = lower' w) words ->
  forall i acc,
    extract_loop lower i words acc = extract_loop lower' i words acc.
Proof.
  induction 1 as [|word rest Hw _ IH]; intros i acc; cbn [extract_loop].
  - reflexivity.
  - rewrite Hw. apply IH.
Qed.

End Extractor.

Lemma extract_entities_ascii (lower : pystr -> pystr) (text : pystr) :
  LowerOnAscii lower -> Forall is_ascii (split text) ->
  extract_entities lower text = extract_entities ascii_lower text.
Proof.
  intros Hl Ha. unfold extract_entities. apply extract_loop_ext.
  eapply Forall_impl; [| exact Ha]. intros w Hw. apply Hl, Hw.
Qed.

Lemma classify_intent_ascii (lower : pystr -> pystr) (text : pystr) :
  LowerOnAscii lower -> is_ascii text ->
  classify_intent lower text = classify_intent ascii_lower text.
Proof.
  intros Hl Ha. unfold classify_intent. rewrite (Hl _ Ha). reflexivity.
Qed.

(** C2.  [extract_entities] splits the text on whitespace and returns, in
    token order, exactly one entity for each token whose lower-cased whole
    form is a word of the media vocabulary (type media_type) or of the
    event vocabulary (type event_type), with the token as it stands as
    value, the token index as start and start+1 as end; other tokens give
    no entity.  "play the music now" gives the one entity
    (media_type, "music", 2, 3). *)
Theorem extract_entities_tokens (lower : pystr -> pystr) (text : pystr) :
  let tokens := split text in
  let found := extract_entities lower text in
  (forall e, In e found <->
             exists i tok, nth_error tokens i = Some tok /\
                           entity_of_token lower i tok e) /\
  StronglySorted lt (map ent_start found) /\
  (LowerOnAscii lower ->
     extract_entities lower (py "play the music now") =
       [{| ent_type := py "media_type"; ent_value := py "music";
           ent_start := 2; ent_end := 3 |}]).
Proof.
  intros tokens found. split; [| split].
  - intros e. unfold found, extract_entities. apply In_extract_loop.
  - apply extract_loop_sorted.
  - intros Hl. rewrite extract_entities_ascii;
      [reflexivity | exact Hl | apply all_ascii_check; reflexivity].
Qed.

Lemma extract_entities_tokens_witness :
  LowerOnAscii ascii_lower /\
  extract_entities ascii_lower (py "play the music now") =
    [{| ent_type := py "media_type"; ent_value := py "music";
        ent_start := 2; ent_end := 3 |}].
Proof.
  assert (H : LowerOnAscii ascii_lower) by (intros s _; reflexivity).
  split; [exact H |].
  exact (proj2 (proj2 (extract_entities_tokens ascii_lower
                        (py "play the music now"))) H).
Defined.

(* ===================================================================== *)
(** * The registry as a dict *)
(* ===================================================================== *)

Lemma str_eqb_refl (a : pystr) : str_eqb a a = true.
Proof. apply str_eqb_eq. reflexivity. Qed.

Lemma str_eqb_neq (a b : pystr) : str_eqb a b = false <-> a <> b.
Proof.
  rewrite <- str_eqb_eq. destruct (str_eqb a b); split; congruence.
Qed.

Lemma dict_get_setitem (k : pystr) (v : PluginInfo) (d : Registry) :
  dict_get k (dict_setitem k v d) = Some v.
Proof.
  induction d as [|[k' v'] d IH]; simpl.
  - rewrite str_eqb_refl. reflexivity.
  - destruct (str_eqb k k') eqn:E; simpl; rewrite E; [reflexivity | exact IH].
Qed.

Lemma dict_setitem_key (k : pystr) (v : PluginInfo) (d : Registry) :
  In k (map fst (dict_setitem k v d)).
Proof.
  induction d as [|[k' v'] d IH]; simpl.
  - left. reflexivity.
  - destruct (str_eqb k k') eqn:E; simpl.
    + left. apply str_eqb_eq in E. congruence.
    + right. exact IH.
Qed.

(** Setting a key that is present keeps the keys and their order. *)
Lemma dict_setitem_present (k : pystr) (v : PluginInfo) (d : Registry) :
  In k (map fst d) -> map fst (dict_setitem k v d) = map fst d.
Proof.
  induction d as [|[k' v'] d IH]; simpl; [tauto |].
  intros H. destruct (str_eqb k k') eqn:E; simpl; [reflexivity |].
  f_equal. apply IH. destruct H as [H | H]; [| exact H].
  apply str_eqb_neq in E. congruence.
Qed.

(** Setting a key that is absent appends the item. *)
Lemma dict_setitem_absent (k : pystr) (v : PluginInfo) (d : Registry) :
  ~ In k (map fst d) -> dict_setitem k v d = d ++ [(k, v)].
Proof.
  induction d as [|[k' v'] d IH]; simpl; [reflexivity |].
  intros H. destruct (str_eqb k k') eqn:E.
  - apply str_eqb_eq in E. subst k'. tauto.
  - f_equal. apply IH. tauto.
Qed.

Lemma In_keys_dec (k : pystr) (d : Registry) :
  In k (map fst d) \/ ~ In k (map fst d).
Proof.
  destruct (in_dec (list_eq_dec N.eq_dec) k (map fst d)); auto.
Qed.

Lemma dict_setitem_wf (k : pystr) (v : PluginInfo) (d : Registry) :
  wf_registry d -> wf_registry (dict_setitem k v d).
Proof.
  unfold wf_registry. intros H. destruct (In_keys_dec k d) as [Hk | Hk].
  - rewrite dict_setitem_present; assumption.
  - rewrite dict_setitem_absent, map_app by assumption. simpl.
    apply NoDup_app; [exact H | repeat constructor; simpl; tauto |].
    intros x Hx [<- | []]. exact (Hk Hx).
Qed.

Lemma dict_setitem_length (k : pystr) (v : PluginInfo) (d : Registry) :
  In k (map fst d) ->
  List.length (dict_setitem k v d) = List.length d.
Proof.
  intros H. rewrite <- (length_map fst), dict_setitem_present, length_map;
    [reflexivity | exact H].
Qed.

Lemma entries_under_absent (k : pystr) (d : Registry) :
  ~ In k (map fst d) -> entries_under k d = 0.
Proof.
  unfold entries_under. induction d as [|[k' v'] d IH]; simpl; [reflexivity |].
  intros H. destruct (str_eqb k k') eqn:E.
  - apply str_eqb_eq in E. subst k'. tauto.
  - apply IH. tauto.
Qed.

Lemma entries_under_setitem (k : pystr) (v : PluginInfo) (d : Registry) :
  wf_registry d -> entries_under k (dict_setitem k v d) = 1.
Proof.
  unfold wf_registry, entries_under.
  induction d as [|[k' v'] d IH]; simpl; intros H.
  - rewrite str_eqb_refl. reflexivity.
  - inversion H as [|? ? Hk' Hd]; subst.
    destruct (str_eqb k k') eqn:E; simpl; rewrite E; simpl.
    + apply str_eqb_eq in E. subst k'.
      f_equal. apply entries_under_absent. exact Hk'.
    + apply IH. exact Hd.
Qed.

Lemma In_setitem_value (k : pystr) (v v' : PluginInfo) (d : Registry) :
  wf_registry d -> (In (k, v') (dict_setitem k v d) <-> v' = v).
Proof.
  unfold wf_registry. induction d as [|[k0 v0] d IH]; simpl; intros H.
  - rewrite str_eqb_refl || idtac. split.
    + intros [E | []]. congruence.
    + intros ->. auto.
  - inversion H as [|? ? Hk0 Hd]; subst.
    destruct (str_eqb k k0) eqn:E; simpl.
    + apply str_eqb_eq in E. subst k0. split.
      * intros [E | Hin]; [congruence |].
        destruct Hk0. apply in_map_iff. exists (k, v'). auto.
      * intros ->. auto.
    + apply str_eqb_neq in E. rewrite <- (IH Hd). split.
      * intros [E' | Hin]; [congruence | exact Hin].
      * auto.
Qed.

(* ===================================================================== *)
(** * The router *)
(* ===================================================================== *)

Lemma route_loop_sound (intent q : pystr) (d : Registry) :
  route_loop intent d = Some q ->
  exists pre info post,
    d = pre ++ (q, info) :: post /\ declares intent info /\
    (forall kv, In kv pre -> ~ declares intent (snd kv)).
Proof.
  unfold declares. induction d as [|[k v] d IH]; simpl; [discriminate |].
  destruct (str_in intent (capabilities v)) eqn:E.
  - intros [= <-]. exists [], v, d. apply str_in_In in E.
    repeat split; [assumption | intros kv []].
  - intros H. destruct (IH H) as (pre & info & post & -> & Hi & Hpre).
    exists ((k, v) :: pre), info, post. repeat split; [assumption |].
    intros kv [<- | Hkv]; [| auto].
    simpl. rewrite <- str_in_In. congruence.
Qed.

Lemma route_loop_none (intent : pystr) (d : Registry) :
  route_loop intent d = None <->
  (forall k info, In (k, info) d -> ~ declares intent info).
Proof.
  unfold declares. induction d as [|[k v] d IH]; simpl.
  - split; [intros _ ? ? [] | reflexivity].
  - destruct (str_in intent (capabilities v)) eqn:E.
    + split; [discriminate |]. intros H. apply str_in_In in E.
      destruct (H k v); auto.
    + rewrite IH. split.
      * intros H k' info [[= <- <-] | Hin]; [| eauto].
        rewrite <- str_in_In. congruence.
      * intros H k' info Hin. eauto.
Qed.

(** Routing after [d[k] = v], when [v] declares the intent: the first
    declaring item is found, and it is the one under [k] or one that
    stands before it. *)
Lemma route_loop_setitem (intent k : pystr) (v : PluginInfo) (d : Registry) :
  declares intent v ->
  exists q pre info post,
    route_loop intent (dict_setitem k v d) = Some q /\
    dict_setitem k v d = pre ++ (q, info) :: post /\
    declares intent info /\
    (forall kv, In kv pre -> ~ declares intent (snd kv)) /\
    (q = k \/ (In (q, info) d /\ In k (map fst post))).
Proof.
  intros Hv. assert (Hb : str_in intent (capabilities v) = true)
    by (apply str_in_In; exact Hv).
  induction d as [|[k0 v0] d IH]; simpl.
  - rewrite Hb. exists k, [], v, []. repeat split; auto; intros kv [].
  - destruct (str_eqb k k0) eqn:E; simpl.
    + rewrite Hb. apply str_eqb_eq in E. subst k0.
      exists k, [], v, d. repeat split; auto; intros kv [].
    + destruct (str_in intent (capabilities v0)) eqn:E0.
      * exists k0, [], v0, (dict_setitem k v d).
        apply str_in_In in E0.
        repeat split; auto; try (intros kv []; fail).
        right. split; [auto | apply dict_setitem_key].
      * destruct IH as (q & pre & info & post & Hr & Hd & Hi & Hpre & Hq).
        exists q, ((k0, v0) :: pre), info, post. rewrite Hd.
        split; [rewrite <- Hd; exact Hr |].
        split; [reflexivity |]. split; [exact Hi |].
        split.
        -- intros kv [<- | Hkv]; [| auto].
           unfold declares. simpl. rewrite <- str_in_In. congruence.
        -- destruct Hq as [-> | [Hin Hk]]; auto.
Qed.

(* ===================================================================== *)
(** * Registration and routing *)
(* ===================================================================== *)

Lemma register_plugin_run (plugin : PluginRegistration) (s : Registry) :
  let info := {| id := reg_id plugin; name := reg_name plugin;
                 version := reg_version plugin;
                 description := reg_description plugin;
                 capabilities := reg_capabilities plugin;
                 status := py "active" |} in
  register_plugin plugin s =
    (Returned info, dict_setitem (reg_id plugin) info s).
Proof. reflexivity. Qed.

Lemma route_to_plugin_run (intent : pystr) (ents : list Entity) (s : Registry) :
  route_to_plugin intent ents s = (Returned (route_loop intent s), s).
Proof. reflexivity. Qed.

(** The registries a run can reach have pairwise different keys: the
    registry is empty when the module is loaded and registration keeps the
    keys apart. *)
Lemma wf_registry_empty : wf_registry [].
Proof. constructor. Qed.

Lemma register_plugin_wf (plugin : PluginRegistration) (s : Registry) :
  wf_registry s -> wf_registry (exec (register_plugin plugin) s).
Proof.
  intros H. unfold exec. rewrite register_plugin_run. cbn [snd].
  apply dict_setitem_wf. exact H.
Qed.

(** C3.  After a plugin whose capabilities contain an intent is registered,
    routing that intent returns a plugin id: the first entry, in the
    iteration order of the registry, that declares the intent, which is the
    registered plugin or an entry that stands before it (and the registered
    plugin when no other entry declares the intent).  Routing an intent that
    no registered plugin declares returns absence. *)
Theorem register_then_route (s : Registry) (plugin : PluginRegistration)
    (intent : pystr) (ents : list Entity) :
  (In intent (reg_capabilities plugin) ->
   let s' := exec (register_plugin plugin) s in
   (exists q pre info post,
      eval (route_to_plugin intent ents) s' = Returned (Some q) /\
      s' = pre ++ (q, info) :: post /\
      declares intent info /\
      (forall kv, In kv pre -> ~ declares intent (snd kv)) /\
      (q = reg_id plugin \/
       (In (q, info) s /\ In (reg_id plugin) (map fst post)))) /\
   ((forall k info, In (k, info) s -> k <> reg_id plugin ->
                    ~ declares intent info) ->
    eval (route_to_plugin intent ents) s' = Returned (Some (reg_id plugin)))) /\
  ((forall k info, In (k, info) s -> ~ declares intent info) ->
   eval (route_to_plugin intent ents) s = Returned None).
Proof.
  split.
  - intros Hcap s'. unfold s', exec, eval.
    rewrite register_plugin_run. cbn [snd]. rewrite route_to_plugin_run.
    cbn [fst]. set (info := {| id := reg_id plugin |}).
    destruct (@route_loop_setitem intent (reg_id plugin) info s Hcap)
      as (q & pre & info' & post & Hr & Hd & Hi & Hpre & Hq).
    split.
    + exists q, pre, info', post. rewrite Hr. auto.
    + intros Hothers. rewrite Hr. do 2 f_equal.
      destruct Hq as [-> | [Hin _]]; [reflexivity |].
      destruct (list_eq_dec N.eq_dec q (reg_id plugin)) as [E | E];
        [exact E |].
      destruct (Hothers q info' Hin E Hi).
  - intros Hnone. unfold eval. rewrite route_to_plugin_run. cbn [fst].
    f_equal. apply route_loop_none. exact Hnone.
Qed.

Lemma register_then_route_witness :
  let P1 := {| reg_id := py "P1"; reg_name := py "Player";
               reg_version := py "1.0"; reg_description := py "plays music";
               reg_capabilities := [py "music_control"];
               reg_endpoint := py "http://localhost:9000" |} in
  In (py "music_control") (reg_capabilities P1) /\
  eval (route_to_plugin (py "music_control") [])
       (exec (register_plugin P1) []) = Returned (Some (py "P1")) /\
  eval (route_to_plugin (py "weather_query") [])
       (exec (register_plugin P1) []) = Returned None.
Proof.
  intros P1.
  assert (Hcap : In (py "music_control") (reg_capabilities P1))
    by (left; reflexivity).
  split; [exact Hcap |]. split.
  - apply (proj2 (proj1 (register_then_route [] P1 (py "music_control") [])
                    Hcap)).
    intros k info [].
  - apply (proj2 (register_then_route (exec (register_plugin P1) []) P1
                    (py "weather_query") [])).
    intros k info [[= <- <-] | []] [Hd | []]. discriminate Hd.
Defined.

(** C4.  In every registry state (a dict, whose keys are pairwise
    different), two registrations under one id in sequence leave exactly
    one entry under that id, holding the metadata of the second
    registration, and the second registration does not change the size of
    the registry. *)
Theorem reregister_overwrites (s : Registry) (p1 p2 : PluginRegistration) :
  wf_registry s ->
  reg_id p1 = reg_id p2 ->
  let s1 := exec (register_plugin p1) s in
  let s2 := exec (register_plugin p2) s1 in
  entries_under (reg_id p2) s2 = 1 /\
  (exists info,
     (forall info', In (reg_id p2, info') s2 <-> info' = info) /\
     dict_get (reg_id p2) s2 = Some info /\
     id info = reg_id p2 /\ name info = reg_name p2 /\
     version info = reg_version p2 /\
     description info = reg_description p2 /\
     capabilities info = reg_capabilities p2 /\
     status info = py "active") /\
  List.length s2 = List.length s1 /\
  wf_registry s2.
Proof.
  intros Hwf Hid s1 s2. unfold s2, s1, exec.
  rewrite !register_plugin_run. cbn [snd].
  set (i1 := {| id := reg_id p1 |}). set (i2 := {| id := reg_id p2 |}).
  assert (Hwf1 : wf_registry (dict_setitem (reg_id p1) i1 s))
    by (apply dict_setitem_wf; exact Hwf).
  split; [apply entries_under_setitem; exact Hwf1 |].
  split; [| split].
  - exists i2. split; [| split].
    + intros info'. apply In_setitem_value. exact Hwf1.
    + apply dict_get_setitem.
    + repeat split.
  - apply dict_setitem_length. rewrite <- Hid. apply dict_setitem_key.
  - apply dict_setitem_wf. exact Hwf1.
Qed.

Lemma reregister_overwrites_witness :
  let p1 := {| reg_id := py "P1"; reg_name := py "Player";
               reg_version := py "1.0"; reg_description := py "plays music";
               reg_capabilities := [py "music_control"];
               reg_endpoint := py "http://localhost:9000" |} in
  let p2 := {| reg_id := py "P1"; reg_name := py "Planner";
               reg_version := py "2.0"; reg_description := py "plans";
               reg_capabilities := [py "calendar_management"];
               reg_endpoint := py "http://localhost:9001" |} in
  let s2 := exec (register_plugin p2) (exec (register_plugin p1) []) in
  wf_registry [] /\ reg_id p1 = reg_id p2 /\
  entries_under (py "P1") s2 = 1 /\ List.length s2 = 1.
Proof.
  intros p1 p2 s2.
  assert (Hwf : wf_registry []) by constructor.
  assert (Hid : reg_id p1 = reg_id p2) by reflexivity.
  destruct (reregister_overwrites p1 p2 Hwf Hid) as (Hone & _ & Hlen & _).
  split; [exact Hwf |]. split; [exact Hid |].
  split; [exact Hone | exact Hlen].
Defined.

(** C5.  [register_plugin] never takes its 500 branch: it returns the
    record it stores under the given id, whose id, name, version,
    description and capabilities are those submitted and whose status is
    the constant "active" (a registration request has no status field, so
    nothing submitted can reach it); the record has no endpoint and the
    submitted endpoint has no effect on the result or on the registry. *)
Theorem register_plugin_succeeds (plugin : PluginRegistration) (s : Registry) :
  exists info,
    eval (register_plugin plugin) s = Returned info /\
    exec (register_plugin plugin) s = dict_setitem (reg_id plugin) info s /\
    dict_get (reg_id plugin) (exec (register_plugin plugin) s) = Some info /\
    id info = reg_id plugin /\ name info = reg_name plugin /\
    version info = reg_version plugin /\
    description info = reg_description plugin /\
    capabilities info = reg_capabilities plugin /\
    status info = py "active" /\
    forall endpoint',
      register_plugin
        {| reg_id := reg_id plugin; reg_name := reg_name plugin;
           reg_version := reg_version plugin;
           reg_description := reg_description plugin;
           reg_capabilities := reg_capabilities plugin;
           reg_endpoint := endpoint' |} s
      = register_plugin plugin s.
Proof.
  unfold eval, exec. rewrite register_plugin_run. cbn [fst snd].
  eexists. split; [reflexivity |]. split; [reflexivity |].
  split; [apply dict_get_setitem |]. repeat split.
Qed.

(** C10.  Capability matching is exact: [route_to_plugin] returns a plugin
    id only for an entry of the registry whose capabilities list has the
    intent itself, character for character, as an element; a plugin that
    declares "Music_Control" is never returned for "music_control". *)
Theorem route_exact_capability (intent : pystr) (ents : list Entity)
    (s : Registry) :
  (forall q,
     eval (route_to_plugin intent ents) s = Returned (Some q) ->
     exists info, In (q, info) s /\ In intent (capabilities info)) /\
  (forall q,
     (forall info, In (q, info) s ->
                   capabilities info = [py "Music_Control"]) ->
     eval (route_to_plugin (py "music_control") ents) s <> Returned (Some q)).
Proof.
  unfold eval. rewrite !route_to_plugin_run. cbn [fst]. split.
  - intros q [= H]. apply route_loop_sound in H.
    destruct H as (pre & info & post & -> & Hi & _).
    exists info. split; [apply in_elt | exact Hi].
  - intros q Hq [= H]. apply route_loop_sound in H.
    destruct H as (pre & info & post & -> & Hi & _).
    unfold declares in Hi. rewrite (Hq info) in Hi by apply in_elt.
    destruct Hi as [Hi | []]. discriminate Hi.
Qed.

Lemma route_exact_capability_witness :
  let shouting := {| id := py "P1"; name := py "Player";
                     version := py "1.0"; description := py "plays music";
                     capabilities := [py "Music_Control"];
                     status := py "active" |} in
  eval (route_to_plugin (py "music_control") []) [(py "P1", shouting)]
    <> Returned (Some (py "P1")) /\
  eval (route_to_plugin (py "Music_Control") []) [(py "P1", shouting)]
    = Returned (Some (py "P1")).
Proof.
  intros shouting. split; [| reflexivity].
  apply (proj2 (route_exact_capability [] [] [(py "P1", shouting)])).
  intros info [[= <-] | []]. reflexivity.
Defined.

(* ===================================================================== *)
(** * Intent processing *)
(* ===================================================================== *)

Lemma LowerOnAscii_ascii_lower : LowerOnAscii ascii_lower.
Proof. intros s _. reflexivity. Qed.

(** What the handler returns: it always returns, with the classified
    intent, the extracted entities, the routed plugin id and confidence
    0.8; the response is the "Processing" sentence for a plugin id that is
    not empty and the "I understand" sentence otherwise. *)
Lemma process_intent_run (lower : pystr -> pystr) (request : IntentRequest)
    (s : Registry) :
  let intent := classify_intent lower (text request) in
  let plugin_id := route_loop intent s in
  process_intent lower request s =
    (Returned
       {| intent := intent;
          confidence := 0.8%Q;
          entities := extract_entities lower (text request);
          response :=
            match plugin_id with
            | Some (c :: p) =>
                py "Processing " ++ intent ++ py " using plugin " ++ c :: p
            | _ => py "I understand you want to " ++ intent ++
                   py ". Let me help you with that."
            end;
          plugin_id := plugin_id |}, s).
Proof.
  intros intent plugin_id. unfold process_intent, try_except, bind.
  rewrite route_to_plugin_run. fold intent. fold plugin_id.
  destruct plugin_id as [[|c p] |]; reflexivity.
Qed.

(** With no plugin registered for weather_query, "What's the weather
    tomorrow?" is answered with the "I understand" sentence, no plugin id
    and confidence 0.8. *)
Lemma process_intent_weather (lower : pystr -> pystr) (s : Registry)
    (ctx : option (list (pystr * Any))) (uid sid : option pystr) :
  LowerOnAscii lower ->
  route_loop (py "weather_query") s = None ->
  process_intent lower
    {| text := py "What's the weather tomorrow?"; context := ctx;
       user_id := uid; session_id := sid |} s =
  (Returned
     {| intent := py "weather_query";
        confidence := 0.8%Q;
        entities := [];
        response := py "I understand you want to weather_query. Let me help you with that.";
        plugin_id := None |}, s).
Proof.
  intros Hl Hr. rewrite process_intent_run. cbn [text].
  rewrite classify_intent_ascii, extract_entities_ascii;
    try exact Hl;
    [| apply all_ascii_check; reflexivity | apply is_ascii_check; reflexivity].
  change (classify_intent ascii_lower (py "What's the weather tomorrow?"))
    with (py "weather_query").
  rewrite Hr. reflexivity.
Qed.

(** C6.  A plugin registered under the empty id is routed to, and the
    response then carries that plugin id together with the "I understand"
    sentence instead of the "Processing" one. *)
Theorem process_intent_empty_plugin_id (lower : pystr -> pystr) :
  LowerOnAscii lower ->
  let nameless := {| reg_id := py ""; reg_name := py "Player";
                     reg_version := py "1.0";
                     reg_description := py "plays music";
                     reg_capabilities := [py "music_control"];
                     reg_endpoint := py "http://localhost:9000" |} in
  let s := exec (register_plugin nameless) [] in
  let request := {| text := py "play music"; context := None;
                    user_id := None; session_id := None |} in
  exists r,
    eval (process_intent lower request) s = Returned r /\
    eval (route_to_plugin (py "music_control") (entities r)) s
      = Returned (Some (py "")) /\
    plugin_id r = Some (py "") /\
    intent r = py "music_control" /\
    response r =
      py "I understand you want to music_control. Let me help you with that." /\
    response r <> py "Processing music_control using plugin ".
Proof.
  intros Hl nameless s request. unfold eval.
  rewrite process_intent_run. cbn [fst text request].
  rewrite classify_intent_ascii;
    [| exact Hl | apply is_ascii_check; reflexivity].
  eexists. split; [reflexivity |].
  repeat split. discriminate.
Qed.

Lemma process_intent_empty_plugin_id_witness :
  LowerOnAscii ascii_lower /\
  exists r,
    eval (process_intent ascii_lower
            {| text := py "play music"; context := None;
               user_id := None; session_id := None |})
         [(py "", {| id := py ""; name := py "Player"; version := py "1.0";
                     description := py "plays music";
                     capabilities := [py "music_control"];
                     status := py "active" |})] = Returned r /\
    plugin_id r = Some (py "") /\
    response r =
      py "I understand you want to music_control. Let me help you with that.".
Proof.
  split; [exact LowerOnAscii_ascii_lower |].
  destruct (process_intent_empty_plugin_id LowerOnAscii_ascii_lower)
    as (r & Hr & _ & Hp & _ & Hresp & _).
  exists r. split; [exact Hr |]. split; [exact Hp | exact Hresp].
Defined.

(** C7.  [process_intent] leaves the registry as it found it, whatever
    the request and whether it returns or raises. *)
Theorem process_intent_registry_unchanged (lower : pystr -> pystr)
    (request : IntentRequest) (s : Registry) :
  exec (process_intent lower request) s = s.
Proof.
  unfold exec, process_intent, try_except, bind.
  rewrite route_to_plugin_run.
  destruct (route_loop _ s) as [[|c p] |]; reflexivity.
Qed.

(** C8.  Two requests with the same text, run on the same registry, get
    the same result whatever their context, user id and session id. *)
Theorem process_intent_passthrough (lower : pystr -> pystr)
    (r1 r2 : IntentRequest) (s : Registry) :
  text r1 = text r2 ->
  process_intent lower r1 s = process_intent lower r2 s.
Proof.
  intros H. rewrite !process_intent_run, H. reflexivity.
Qed.

Lemma process_intent_passthrough_witness :
  let r1 := {| text := py "play the music now"; context := None;
               user_id := None; session_id := None |} in
  let r2 := {| text := py "play the music now";
               context := Some [(py "room", AStr (py "kitchen"));
                                (py "volume", AInt 7)];
               user_id := Some (py "u-17");
               session_id := Some (py "s-4") |} in
  text r1 = text r2 /\
  process_intent ascii_lower r1 [] = process_intent ascii_lower r2 [].
Proof.
  intros r1 r2.
  assert (H : text r1 = text r2) by reflexivity.
  split; [exact H |].
  exact (process_intent_passthrough ascii_lower r1 r2 [] H).
Defined.

(* ===================================================================== *)
(** * Health *)
(* ===================================================================== *)

Module HealthFacts.
Import Health.

Lemma total_seconds_le (a b : timedelta) :
  (a <= b)%Z -> (total_seconds a <= total_seconds b)%Q.
Proof. intros H. unfold total_seconds, Qle. simpl. lia. Qed.

Lemma total_seconds_nonneg (a : timedelta) :
  (0 <= a)%Z -> (0 <= total_seconds a)%Q.
Proof. intros H. unfold total_seconds, Qle. simpl. lia. Qed.

Section Monotone.

Variable now : Clock.
Hypothesis now_monotone : monotone_clock now.

(** Every response of a sequence of calls reports the time between the
    start and a reading that is not earlier than the first of the calls. *)
Lemma health_calls_readings (k : nat) :
  forall n,
    Forall (fun r => exists m, n <= m /\
                       uptime r = total_seconds (now m - start_time now)%Z)
           (health_calls now k n).
Proof.
  induction k as [|k IH]; intros n; simpl; constructor.
  - exists n. split; [lia | reflexivity].
  - eapply Forall_impl; [| apply IH].
    intros r (m & Hm & E). exists m. split; [lia | exact E].
Qed.

Lemma health_calls_nonneg (k n : nat) :
  Forall (fun r => (0 <= uptime r)%Q) (health_calls now k n).
Proof.
  eapply Forall_impl; [| apply health_calls_readings].
  intros r (m & _ & ->). apply total_seconds_nonneg.
  unfold start_time. specialize (now_monotone (n := 0) (m := m)). lia.
Qed.

Lemma health_calls_sorted (k : nat) :
  forall n, StronglySorted Qle (map uptime (health_calls now k n)).
Proof.
  induction k as [|k IH]; intros n; simpl; constructor.
  - apply IH.
  - apply Forall_forall. intros u Hu. apply in_map_iff in Hu.
    destruct Hu as (r & <- & Hr).
    pose proof (health_calls_readings k (S (S n))) as Hall.
    rewrite Forall_forall in Hall. destruct (Hall r Hr) as (m & Hm & ->).
    apply total_seconds_le.
    specialize (now_monotone (n := n) (m := m)). lia.
Qed.

End Monotone.

(** C9, as the code has it.  When the successive readings of the wall clock
    never go back, every uptime reported by a sequence of health calls of
    one run is non-negative and the reported uptimes never decrease. *)
Theorem uptime_monotone (now : Clock) (k : nat) :
  monotone_clock now ->
  Forall (fun r => (0 <= uptime r)%Q) (health_run now k) /\
  StronglySorted Qle (map uptime (health_run now k)).
Proof.
  intros H. split.
  - apply health_calls_nonneg. exact H.
  - apply health_calls_sorted. exact H.
Qed.

Lemma ticking_clock_monotone : monotone_clock ticking_clock.
Proof. intros n m H. unfold ticking_clock. lia. Qed.

Lemma uptime_monotone_witness :
  monotone_clock ticking_clock /\
  Forall (fun r => (0 <= uptime r)%Q) (health_run ticking_clock 3) /\
  StronglySorted Qle (map uptime (health_run ticking_clock 3)).
Proof.
  split; [exact ticking_clock_monotone |].
  exact (uptime_monotone 3 ticking_clock_monotone).
Defined.

(** C9, as stated, fails on a wall clock that is set back: the first
    health call reports a negative uptime and the second a smaller one. *)
Lemma uptime_clock_set_back :
  exists r1 r2,
    health_run stepped_back_clock 2 = [r1; r2] /\
    (uptime r1 < 0)%Q /\ (uptime r2 < uptime r1)%Q.
Proof.
  do 2 eexists. split; [reflexivity |].
  split; reflexivity.
Qed.

End HealthFacts.

(* ===================================================================== *)
(** * Listing and registration *)
(* ===================================================================== *)

Lemma get_plugins_run (s : Registry) :
  get_plugins s = (Returned (map snd s), s).
Proof. reflexivity. Qed.

Lemma register_plugin_exec (plugin : PluginRegistration) (s : Registry) :
  exec (register_plugin plugin) s =
    dict_setitem (reg_id plugin) (info_of plugin) s.
Proof. reflexivity. Qed.

Lemma dict_get_setitem_other (k k' : pystr) (v : PluginInfo) (d : Registry) :
  k' <> k -> dict_get k' (dict_setitem k v d) = dict_get k' d.
Proof.
  intros Hk. induction d as [|[k0 v0] d IH]; simpl.
  - apply str_eqb_neq in Hk. rewrite Hk. reflexivity.
  - destruct (str_eqb k k0) eqn:E; simpl.
    + apply str_eqb_eq in E. subst k0.
      apply str_eqb_neq in Hk. rewrite Hk. reflexivity.
    + rewrite IH. reflexivity.
Qed.

Lemma In_setitem_other (k k' : pystr) (v v' : PluginInfo) (d : Registry) :
  k' <> k -> (In (k', v') (dict_setitem k v d) <-> In (k', v') d).
Proof.
  intros Hk. induction d as [|[k0 v0] d IH]; simpl.
  - split; [intros [E | []]; congruence | tauto].
  - destruct (str_eqb k k0) eqn:E; simpl.
    + apply str_eqb_eq in E. subst k0. split.
      * intros [E | H]; [congruence | auto].
      * intros [E | H]; [congruence | auto].
    + rewrite IH. reflexivity.
Qed.

Lemma In_setitem_inv (k k' : pystr) (v v' : PluginInfo) (d : Registry) :
  In (k', v') (dict_setitem k v d) ->
  (k' = k /\ v' = v) \/ In (k', v') d.
Proof.
  induction d as [|[k0 v0] d IH]; simpl.
  - intros [[= <- <-] | []]. auto.
  - destruct (str_eqb k k0) eqn:E; simpl.
    + apply str_eqb_eq in E. subst k0.
      intros [[= <- <-] | H]; auto.
    + intros [H | H]; [auto |]. destruct (IH H); auto.
Qed.

(** Setting the key of the item at index [i] replaces that item where it
    stands. *)
Lemma dict_setitem_at (k : pystr) (v old : PluginInfo) (d : Registry) :
  wf_registry d ->
  forall i, nth_error d i = Some (k, old) ->
            dict_setitem k v d = firstn i d ++ (k, v) :: skipn (S i) d.
Proof.
  unfold wf_registry. induction d as [|[k0 v0] d IH]; intros Hwf i Hi.
  - destruct i; discriminate Hi.
  - inversion Hwf as [|? ? Hk0 Hd]; subst. destruct i as [|i]; simpl in *.
    + injection Hi as -> ->. rewrite str_eqb_refl. reflexivity.
    + assert (Hne : str_eqb k k0 = false).
      { apply str_eqb_neq. intros ->. apply Hk0.
        apply in_map_iff. exists (k0, old). split; [reflexivity |].
        eapply nth_error_In. exact Hi. }
      rewrite Hne. f_equal. apply IH; assumption.
Qed.

(** X1.  GET /plugins after a registration: under an id that was not
    registered, the listing is the one before followed by the new record;
    under an id that was, the new record stands where the old one stood and
    every other record keeps its place. *)
Theorem listing_after_registration (plugin : PluginRegistration)
    (s : Registry) :
  let s' := exec (register_plugin plugin) s in
  (~ In (reg_id plugin) (map fst s) ->
   eval get_plugins s' = Returned (map snd s ++ [info_of plugin])) /\
  (wf_registry s ->
   forall i old, nth_error s i = Some (reg_id plugin, old) ->
     eval get_plugins s' =
       Returned (firstn i (map snd s) ++
                 info_of plugin :: skipn (S i) (map snd s))).
Proof.
  intros s'. unfold s', eval. rewrite register_plugin_exec, get_plugins_run.
  cbn [fst]. split.
  - intros Hnew. rewrite dict_setitem_absent by exact Hnew.
    rewrite map_app. reflexivity.
  - intros Hwf i old Hi.
    rewrite (dict_setitem_at (info_of plugin) Hwf i Hi).
    rewrite map_app, <- firstn_map. cbn [map snd]. rewrite <- skipn_map.
    reflexivity.
Qed.

Lemma listing_after_registration_witness :
  let p1 := {| reg_id := py "P1"; reg_name := py "Player";
               reg_version := py "1.0"; reg_description := py "plays music";
               reg_capabilities := [py "music_control"];
               reg_endpoint := py "http://localhost:9000" |} in
  let p2 := {| reg_id := py "P2"; reg_name := py "Planner";
               reg_version := py "1.0"; reg_description := py "plans";
               reg_capabilities := [py "calendar_management"];
               reg_endpoint := py "http://localhost:9001" |} in
  let s := [(py "P1", info_of p1)] in
  ~ In (reg_id p2) (map fst s) /\
  eval get_plugins (exec (register_plugin p2) s)
    = Returned [info_of p1; info_of p2].
Proof.
  intros p1 p2 s.
  assert (H : ~ In (reg_id p2) (map fst s))
    by (intros [H | []]; discriminate H).
  split; [exact H |].
  exact (proj1 (listing_after_registration p2 s) H).
Defined.

(** X2.  A registration leaves the record of every other id as it is. *)
Theorem registration_frame (plugin : PluginRegistration) (s : Registry)
    (k : pystr) :
  k <> reg_id plugin ->
  dict_get k (exec (register_plugin plugin) s) = dict_get k s /\
  (forall info, In (k, info) (exec (register_plugin plugin) s) <->
                In (k, info) s).
Proof.
  intros Hk. rewrite register_plugin_exec. split.
  - apply dict_get_setitem_other. exact Hk.
  - intros info. apply In_setitem_other. exact Hk.
Qed.

Lemma registration_frame_witness :
  let p1 := {| reg_id := py "P1"; reg_name := py "Player";
               reg_version := py "1.0"; reg_description := py "plays music";
               reg_capabilities := [py "music_control"];
               reg_endpoint := py "http://localhost:9000" |} in
  let p2 := {| reg_id := py "P2"; reg_name := py "Planner";
               reg_version := py "1.0"; reg_description := py "plans";
               reg_capabilities := [py "calendar_management"];
               reg_endpoint := py "http://localhost:9001" |} in
  let s := [(py "P1", info_of p1)] in
  py "P1" <> reg_id p2 /\
  dict_get (py "P1") (exec (register_plugin p2) s) = Some (info_of p1).
Proof.
  intros p1 p2 s.
  assert (H : py "P1" <> reg_id p2) by discriminate.
  split; [exact H |].
  exact (proj1 (registration_frame p2 s H)).
Defined.

(* ===================================================================== *)
(** * Runs of requests *)
(* ===================================================================== *)

Lemma dict_get_key (k : pystr) (d : Registry) :
  In k (map fst d) -> dict_get k d <> None.
Proof.
  induction d as [|[k0 v0] d IH]; simpl; [tauto |].
  intros [<- | H]; [rewrite str_eqb_refl; discriminate |].
  destruct (str_eqb k k0); [discriminate | auto].
Qed.

Section Runs.

Variable lower : pystr -> pystr.

Lemma serve_exec (req : Request) (s : Registry) :
  exec (serve lower req) s =
    match req with
    | POST_plugins plugin => dict_setitem (reg_id plugin) (info_of plugin) s
    | _ => s
    end.
Proof.
  destruct req as [| plugin | request]; try reflexivity.
  unfold exec, serve, bind. rewrite process_intent_run. reflexivity.
Qed.

Lemma serve_all_app (reqs1 reqs2 : list Request) :
  forall s,
    serve_all lower (reqs1 ++ reqs2) s =
      serve_all lower reqs2 (serve_all lower reqs1 s).
Proof.
  induction reqs1 as [|req reqs1 IH]; intros s; simpl; [reflexivity |].
  apply IH.
Qed.

Lemma dict_setitem_ok (plugin : PluginRegistration) (s : Registry) :
  registry_ok s ->
  registry_ok (dict_setitem (reg_id plugin) (info_of plugin) s).
Proof.
  intros [Hwf Hrec]. split; [apply dict_setitem_wf; exact Hwf |].
  intros k info Hin. apply In_setitem_inv in Hin.
  destruct Hin as [[-> ->] | Hin]; [split; reflexivity | auto].
Qed.

Lemma serve_all_ok (reqs : list Request) :
  forall s, registry_ok s -> registry_ok (serve_all lower reqs s).
Proof.
  induction reqs as [|req reqs IH]; intros s Hs; simpl; [exact Hs |].
  apply IH. rewrite serve_exec.
  destruct req; [exact Hs | apply dict_setitem_ok; exact Hs | exact Hs].
Qed.

Lemma registry_ok_empty : registry_ok [].
Proof. split; [constructor | intros k info []]. Qed.

Lemma registry_ok_ids (s : Registry) :
  registry_ok s -> map id (map snd s) = map fst s.
Proof.
  intros [_ Hrec]. rewrite map_map. apply map_ext_in.
  intros [k info] Hin. simpl. apply (Hrec k info Hin).
Qed.

Lemma serve_all_keys (reqs : list Request) :
  forall s,
    map fst (serve_all lower reqs s) =
      first_occurrences (map fst s) (map reg_id (registrations reqs)).
Proof.
  induction reqs as [|req reqs IH]; intros s; simpl; [reflexivity |].
  rewrite IH, serve_exec. destruct req as [| plugin | request];
    try reflexivity.
  cbn [registrations map first_occurrences]. f_equal.
  destruct (str_in (reg_id plugin) (map fst s)) eqn:E.
  - apply dict_setitem_present. apply str_in_In. exact E.
  - rewrite dict_setitem_absent, map_app; [reflexivity |].
    rewrite <- str_in_In. congruence.
Qed.

Lemma serve_all_grows (reqs : list Request) :
  forall s,
    (forall k, In k (map fst s) -> In k (map fst (serve_all lower reqs s))) /\
    List.length s <= List.length (serve_all lower reqs s).
Proof.
  induction reqs as [|req reqs IH]; intros s; simpl; [auto |].
  destruct (IH (exec (serve lower req) s)) as [Hkeys Hlen].
  rewrite serve_exec in *. destruct req as [| plugin | request];
    try (split; assumption).
  split.
  - intros k Hk. apply Hkeys.
    destruct (In_keys_dec (reg_id plugin) s) as [Hin | Hout].
    + rewrite dict_setitem_present; assumption.
    + rewrite dict_setitem_absent, map_app by assumption.
      apply in_or_app. auto.
  - eapply Nat.le_trans; [| exact Hlen].
    destruct (In_keys_dec (reg_id plugin) s) as [Hin | Hout].
    + rewrite dict_setitem_length by assumption. lia.
    + rewrite dict_setitem_absent, length_app by assumption. simpl. lia.
Qed.

End Runs.

(** X3.  Whatever requests were served since the start, GET /plugins
    returns records with pairwise different ids, every one of them with
    status "active". *)
Theorem listing_distinct_active (lower : pystr -> pystr)
    (reqs : list Request) :
  exists plugins,
    eval get_plugins (serve_all lower reqs []) = Returned plugins /\
    NoDup (map id plugins) /\
    Forall (fun info => status info = py "active") plugins.
Proof.
  pose proof (serve_all_ok lower reqs registry_ok_empty) as Hok.
  unfold eval. rewrite get_plugins_run. cbn [fst].
  eexists. split; [reflexivity |]. split.
  - rewrite registry_ok_ids by exact Hok. apply Hok.
  - apply Forall_forall. intros info Hin. apply in_map_iff in Hin.
    destruct Hin as ([k info'] & <- & Hin). apply (proj2 Hok k info' Hin).
Qed.

(** X4.  There is no deregistration: once a registration under an id was
    served, every later state of the registry has an entry under that id,
    and no run of requests makes the registry shorter. *)
Theorem registered_stays_listed (lower : pystr -> pystr)
    (before after : list Request) (plugin : PluginRegistration)
    (s : Registry) :
  let s' := serve_all lower (before ++ POST_plugins plugin :: after) s in
  In (reg_id plugin) (map fst s') /\
  dict_get (reg_id plugin) s' <> None /\
  List.length s <= List.length s'.
Proof.
  intros s'. unfold s'.
  assert (H : In (reg_id plugin)
                 (map fst (serve_all lower
                             (before ++ POST_plugins plugin :: after) s))).
  { rewrite serve_all_app. cbn [serve_all]. rewrite serve_exec.
    apply serve_all_grows. apply dict_setitem_key. }
  split; [exact H |]. split; [exact (dict_get_key _ _ H) |].
  apply serve_all_grows.
Qed.

(** X5.  Last write wins over a whole run: after any sequence of requests,
    the record under an id is the one of the last registration made under
    that id in the sequence, and the record from before the sequence when
    no registration was made under it. *)
Theorem last_registration_wins (lower : pystr -> pystr)
    (reqs : list Request) (s : Registry) (k : pystr) :
  dict_get k (serve_all lower reqs s) =
    match last_registration k (registrations reqs) with
    | Some plugin => Some (info_of plugin)
    | None => dict_get k s
    end.
Proof.
  revert s. induction reqs as [|req reqs IH]; intros s; simpl;
    [reflexivity |].
  rewrite IH, serve_exec. destruct req as [| plugin | request];
    try reflexivity.
  cbn [registrations last_registration].
  destruct (last_registration k (registrations reqs)); [reflexivity |].
  destruct (str_eqb k (reg_id plugin)) eqn:E.
  - apply str_eqb_eq in E. subst k. apply dict_get_setitem.
  - apply dict_get_setitem_other. apply str_eqb_neq. exact E.
Qed.


(** X6.  GET /plugins lists the plugins in the order in which their ids
    were first registered, one record for each id. *)
Theorem listing_in_first_registration_order (lower : pystr -> pystr)
    (reqs : list Request) :
  exists plugins,
    eval get_plugins (serve_all lower reqs []) = Returned plugins /\
    map id plugins =
      first_occurrences [] (map reg_id (registrations reqs)).
Proof.
  unfold eval. rewrite get_plugins_run. cbn [fst].
  eexists. split; [reflexivity |].
  rewrite registry_ok_ids by (apply serve_all_ok, registry_ok_empty).
  apply serve_all_keys.
Qed.

(* ===================================================================== *)
(** * Routes under registration *)
(* ===================================================================== *)

Lemma route_loop_setitem_keep (intent k q : pystr) (v : PluginInfo)
    (d : Registry) :
  route_loop intent d = Some q -> q <> k ->
  ~ declares intent v \/ ~ In k (map fst d) ->
  route_loop intent (dict_setitem k v d) = Some q.
Proof.
  unfold declares. intros Hr Hq Hv.
  induction d as [|[k0 v0] d IH]; simpl in *; [discriminate |].
  destruct (str_eqb k k0) eqn:E; simpl.
  - apply str_eqb_eq in E. subst k0.
    destruct (str_in intent (capabilities v0)) eqn:E0; [congruence |].
    destruct (str_in intent (capabilities v)) eqn:Ev; [| exact Hr].
    apply str_in_In in Ev. tauto.
  - destruct (str_in intent (capabilities v0)); [exact Hr |].
    apply IH; tauto.
Qed.

Lemma route_loop_setitem_holder (intent k : pystr) (v : PluginInfo)
    (d : Registry) :
  route_loop intent d = Some k -> declares intent v ->
  route_loop intent (dict_setitem k v d) = Some k.
Proof.
  unfold declares. intros Hr Hv. apply str_in_In in Hv.
  induction d as [|[k0 v0] d IH]; simpl in *; [discriminate |].
  destruct (str_eqb k k0) eqn:E; simpl.
  - apply str_eqb_eq in E. subst k0. rewrite Hv. reflexivity.
  - destruct (str_in intent (capabilities v0)); [exact Hr | auto].
Qed.

Lemma route_loop_setitem_none (intent k : pystr) (v : PluginInfo)
    (d : Registry) :
  route_loop intent d = None -> ~ declares intent v ->
  route_loop intent (dict_setitem k v d) = None.
Proof.
  intros Hr Hv. apply route_loop_none. intros k' info Hin.
  apply In_setitem_inv in Hin. destruct Hin as [[_ ->] | Hin]; [exact Hv |].
  rewrite route_loop_none in Hr. eauto.
Qed.

(** The loop passes over a front part that holds no entry under the id it
    ends up returning. *)
Lemma route_loop_skip (intent q : pystr) (pre rest : Registry) :
  route_loop intent (pre ++ rest) = Some q -> ~ In q (map fst pre) ->
  forall rest', route_loop intent (pre ++ rest') = route_loop intent rest'.
Proof.
  induction pre as [|[k0 v0] pre IH]; simpl; intros Hr Hq rest';
    [reflexivity |].
  destruct (str_in intent (capabilities v0)).
  - injection Hr as ->. tauto.
  - apply IH; tauto.
Qed.

Lemma NoDup_app_disjoint (A : Type) (l l' : list A) (a : A) :
  NoDup (l ++ l') -> In a l -> In a l' -> False.
Proof.
  induction l as [|x l IH]; simpl; intros Hnd Hl Hl'; [assumption |].
  inversion Hnd as [|? ? Hx Hnd']; subst. destruct Hl as [-> | Hl].
  - apply Hx, in_or_app. auto.
  - exact (IH Hnd' Hl Hl').
Qed.

Lemma dict_setitem_middle (k : pystr) (v old : PluginInfo)
    (pre rest : Registry) :
  ~ In k (map fst pre) ->
  dict_setitem k v (pre ++ (k, old) :: rest) = pre ++ (k, v) :: rest.
Proof.
  induction pre as [|[k0 v0] pre IH]; simpl; intros Hk.
  - rewrite str_eqb_refl. reflexivity.
  - assert (E : str_eqb k k0 = false)
      by (apply str_eqb_neq; intros ->; tauto).
    rewrite E, IH; [reflexivity | tauto].
Qed.

(** X7.  What a registration does to the route of an intent.  A route to
    another plugin stays when the registered plugin is new or does not
    declare the intent; the route to the registered plugin itself stays
    when it still declares the intent; an intent without route stays
    without one when the registered plugin does not declare it. *)
Theorem route_after_registration (intent : pystr) (ents : list Entity)
    (plugin : PluginRegistration) (s : Registry) :
  let s' := exec (register_plugin plugin) s in
  (forall q,
     eval (route_to_plugin intent ents) s = Returned (Some q) ->
     q <> reg_id plugin ->
     ~ In intent (reg_capabilities plugin) \/
     ~ In (reg_id plugin) (map fst s) ->
     eval (route_to_plugin intent ents) s' = Returned (Some q)) /\
  (eval (route_to_plugin intent ents) s = Returned (Some (reg_id plugin)) ->
   In intent (reg_capabilities plugin) ->
   eval (route_to_plugin intent ents) s' = Returned (Some (reg_id plugin))) /\
  (eval (route_to_plugin intent ents) s = Returned None ->
   ~ In intent (reg_capabilities plugin) ->
   eval (route_to_plugin intent ents) s' = Returned None).
Proof.
  intros s'. unfold s', eval.
  rewrite register_plugin_exec, !route_to_plugin_run. cbn [fst].
  split; [| split].
  - intros q [= Hr] Hq Hv. f_equal.
    apply route_loop_setitem_keep; assumption.
  - intros [= Hr] Hv. f_equal.
    apply route_loop_setitem_holder; assumption.
  - intros [= Hr] Hv. f_equal.
    apply route_loop_setitem_none; assumption.
Qed.

Lemma route_after_registration_witness :
  let p1 := {| reg_id := py "P1"; reg_name := py "Player";
               reg_version := py "1.0"; reg_description := py "plays music";
               reg_capabilities := [py "music_control"];
               reg_endpoint := py "http://localhost:9000" |} in
  let p2 := {| reg_id := py "P2"; reg_name := py "Jukebox";
               reg_version := py "1.0"; reg_description := py "plays too";
               reg_capabilities := [py "music_control"];
               reg_endpoint := py "http://localhost:9001" |} in
  let s := [(py "P1", info_of p1)] in
  eval (route_to_plugin (py "music_control") []) s
    = Returned (Some (py "P1")) /\
  py "P1" <> reg_id p2 /\
  ~ In (reg_id p2) (map fst s) /\
  eval (route_to_plugin (py "music_control") [])
       (exec (register_plugin p2) s) = Returned (Some (py "P1")).
Proof.
  intros p1 p2 s.
  assert (Hr : eval (route_to_plugin (py "music_control") []) s
               = Returned (Some (py "P1"))) by reflexivity.
  assert (Hq : py "P1" <> reg_id p2) by discriminate.
  assert (Hn : ~ In (reg_id p2) (map fst s))
    by (intros [H | []]; discriminate H).
  split; [exact Hr |]. split; [exact Hq |]. split; [exact Hn |].
  exact (proj1 (route_after_registration (py "music_control") [] p2 s)
           (py "P1") Hr Hq (or_intror Hn)).
Defined.

(** X8.  A registration under an id that is already registered keeps the
    place of that id in the iteration order, so a plugin that stands before
    the plugin an intent is routed to takes the route over when it is
    registered again with that intent among its capabilities. *)
Theorem reregistration_takes_route (intent : pystr) (ents : list Entity)
    (plugin : PluginRegistration) (old info : PluginInfo) (q : pystr)
    (pre mid post s : Registry) :
  wf_registry s ->
  s = pre ++ (reg_id plugin, old) :: mid ++ (q, info) :: post ->
  eval (route_to_plugin intent ents) s = Returned (Some q) ->
  In intent (reg_capabilities plugin) ->
  q <> reg_id plugin /\
  eval (route_to_plugin intent ents) (exec (register_plugin plugin) s)
    = Returned (Some (reg_id plugin)).
Proof.
  unfold wf_registry, eval. intros Hwf -> Hr Hcap.
  rewrite register_plugin_exec, route_to_plugin_run in *. cbn [fst] in *.
  injection Hr as Hr. rewrite map_app in Hwf. cbn [map fst] in Hwf.
  assert (Hk : ~ In (reg_id plugin) (map fst pre)).
  { intros Hin. eapply NoDup_app_disjoint; [exact Hwf | exact Hin |].
    left. reflexivity. }
  assert (Hq : ~ In q (map fst pre)).
  { intros Hin. eapply NoDup_app_disjoint; [exact Hwf | exact Hin |].
    right. rewrite map_app. apply in_or_app. right. left. reflexivity. }
  split.
  - intros ->. apply NoDup_app_remove_l in Hwf.
    inversion Hwf as [|? ? Hx _]; subst. apply Hx.
    rewrite map_app. apply in_or_app. right. left. reflexivity.
  - rewrite dict_setitem_middle by exact Hk.
    erewrite route_loop_skip; [| exact Hr | exact Hq]. simpl.
    assert (Hb : str_in intent (reg_capabilities plugin) = true)
      by (apply str_in_In; exact Hcap).
    rewrite Hb. reflexivity.
Qed.

Lemma reregistration_takes_route_witness :
  let p1 := {| reg_id := py "P1"; reg_name := py "Planner";
               reg_version := py "1.0"; reg_description := py "plans";
               reg_capabilities := [py "calendar_management"];
               reg_endpoint := py "http://localhost:9000" |} in
  let p2 := {| reg_id := py "P2"; reg_name := py "Player";
               reg_version := py "1.0"; reg_description := py "plays music";
               reg_capabilities := [py "music_control"];
               reg_endpoint := py "http://localhost:9001" |} in
  let p1' := {| reg_id := py "P1"; reg_name := py "Planner";
                reg_version := py "2.0"; reg_description := py "plans, plays";
                reg_capabilities := [py "calendar_management";
                                     py "music_control"];
                reg_endpoint := py "http://localhost:9000" |} in
  let s := [(py "P1", info_of p1); (py "P2", info_of p2)] in
  wf_registry s /\
  eval (route_to_plugin (py "music_control") []) s
    = Returned (Some (py "P2")) /\
  In (py "music_control") (reg_capabilities p1') /\
  eval (route_to_plugin (py "music_control") [])
       (exec (register_plugin p1') s) = Returned (Some (py "P1")).
Proof.
  intros p1 p2 p1' s.
  assert (Hwf : wf_registry s).
  { repeat constructor; simpl; intros H;
      repeat (destruct H as [H | H]; try discriminate H); exact H. }
  assert (Hr : eval (route_to_plugin (py "music_control") []) s
               = Returned (Some (py "P2"))) by reflexivity.
  assert (Hcap : In (py "music_control") (reg_capabilities p1'))
    by (right; left; reflexivity).
  split; [exact Hwf |]. split; [exact Hr |]. split; [exact Hcap |].
  exact (proj2 (@reregistration_takes_route (py "music_control") [] p1'
                  (info_of p1) (info_of p2) (py "P2") [] [] [] s
                  Hwf eq_refl Hr Hcap)).
Defined.

(* ===================================================================== *)
(** * More on the classifier and the extractor *)
(* ===================================================================== *)

Lemma split_from_substring (s : pystr) :
  forall cur tok, In tok (split_from cur s) -> substring tok (cur ++ s).
Proof.
  unfold substring. induction s as [|c s IH]; intros cur tok; simpl.
  - destruct cur; simpl; [tauto |]. intros [<- | []].
    exists [], []. rewrite !app_nil_r. reflexivity.
  - destruct (isspace c).
    + destruct cur as [|x cur].
      * intros H. destruct (IH [] tok H) as (pre & post & E).
        simpl in E. exists (c :: pre), post. rewrite E. reflexivity.
      * intros [<- | H].
        -- exists [], (c :: s). reflexivity.
        -- destruct (IH [] tok H) as (pre & post & E). simpl in E.
           exists ((x :: cur) ++ c :: pre), post.
           rewrite E, <- !app_assoc. reflexivity.
    + intros H. destruct (IH (cur ++ [c]) tok H) as (pre & post & E).
      exists pre, post. rewrite <- E, <- app_assoc. reflexivity.
Qed.

Lemma split_substring (text tok : pystr) :
  In tok (split text) -> substring tok text.
Proof. intros H. exact (split_from_substring text [] tok H). Qed.

Lemma substring_ascii (w t : pystr) :
  substring w t -> is_ascii t -> is_ascii w.
Proof.
  unfold is_ascii. intros (pre & post & ->) H.
  apply Forall_app in H. destruct H as [_ H].
  apply Forall_app in H. tauto.
Qed.

Lemma substring_ascii_lower (w t : pystr) :
  substring w t -> substring (ascii_lower w) (ascii_lower t).
Proof.
  unfold ascii_lower. intros (pre & post & ->).
  exists (map ascii_lower_char pre), (map ascii_lower_char post).
  rewrite !map_app. reflexivity.
Qed.

Lemma split_whitespace_only (s : pystr) :
  forallb isspace s = true -> split s = [].
Proof.
  unfold split. induction s as [|c s IH]; simpl; [reflexivity |].
  intros H. apply andb_true_iff in H. destruct H as [-> H]. auto.
Qed.

Lemma extract_loop_length (lower : pystr -> pystr) (words : list pystr) :
  forall i,
    List.length (extract_loop lower i words []) <= List.length words.
Proof.
  induction words as [|word rest IH]; intros i; [simpl; lia |].
  destruct (extract_loop_cons lower i word rest) as (head & -> & _ & Hhead).
  rewrite length_app. specialize (IH (S i)).
  destruct Hhead as [-> | (e & -> & _)]; simpl; lia.
Qed.

(** X9.  The intent of every reply of POST /intent is one of the six
    labels of the classifier. *)
Theorem intent_is_a_label (lower : pystr -> pystr) (request : IntentRequest)
    (s : Registry) :
  In (classify_intent lower (text request)) intent_labels /\
  exists r, eval (process_intent lower request) s = Returned r /\
            In (intent r) intent_labels.
Proof.
  assert (H : In (classify_intent lower (text request)) intent_labels).
  { unfold classify_intent, intent_labels.
    destruct (any_word_in music_words _); [simpl; auto |].
    destruct (any_word_in calendar_words _); [simpl; auto |].
    destruct (any_word_in note_words _); [simpl; auto |].
    destruct (any_word_in weather_words _); [simpl; auto 6 |].
    destruct (any_word_in news_words _); simpl; auto 7. }
  split; [exact H |].
  unfold eval. rewrite process_intent_run. cbn [fst].
  eexists. split; [reflexivity | exact H].
Qed.

(** X10.  The entities of a text are bounded by its tokens: there are at
    most as many entities as tokens, the start of an entity is the index of
    a token, its end is the next index, its value is not empty and holds no
    whitespace; a text of whitespace only, or the empty text, has no
    entity. *)
Theorem entities_within_tokens (lower : pystr -> pystr) (text : pystr) :
  List.length (extract_entities lower text) <= List.length (split text) /\
  (forall e, In e (extract_entities lower text) ->
     ent_start e < List.length (split text) /\
     ent_end e = S (ent_start e) /\
     ent_value e <> [] /\
     existsb isspace (ent_value e) = false) /\
  (forallb isspace text = true -> extract_entities lower text = []).
Proof.
  split; [apply extract_loop_length |]. split.
  - intros e He. apply In_extract_loop in He.
    destruct He as (j & tok & Hj & _ & Hv & Hs & Hn). simpl in Hs, Hn.
    assert (Hlt : j < List.length (split text))
      by (apply nth_error_Some; congruence).
    pose proof (proj1 (split_tokens text)) as Htok.
    rewrite Forall_forall in Htok.
    destruct (Htok tok (nth_error_In _ _ Hj)) as [Hne Hns].
    rewrite Hv, Hs, Hn. repeat split; [exact Hlt | lia | exact Hne |].
    clear -Hns. induction tok as [|c tok IH]; [reflexivity |].
    simpl in *. apply andb_true_iff in Hns. destruct Hns as [Hc Hns].
    destruct (isspace c); [discriminate | auto].
  - intros H. unfold extract_entities.
    rewrite split_whitespace_only by exact H. reflexivity.
Qed.

Lemma entities_within_tokens_witness :
  In {| ent_type := py "event_type"; ent_value := py "Meeting";
        ent_start := 2; ent_end := 3 |}
     (extract_entities ascii_lower (py "schedule a Meeting tomorrow")) /\
  2 < List.length (split (py "schedule a Meeting tomorrow")) /\
  forallb isspace (py "   ") = true /\
  extract_entities ascii_lower (py "   ") = [].
Proof.
  assert (H : In {| ent_type := py "event_type"; ent_value := py "Meeting";
                    ent_start := 2; ent_end := 3 |}
                 (extract_entities ascii_lower
                    (py "schedule a Meeting tomorrow")))
    by (left; reflexivity).
  assert (Hw : forallb isspace (py "   ") = true) by reflexivity.
  split; [exact H |]. split.
  - exact (proj1 (proj1 (proj2 (entities_within_tokens ascii_lower
                                  (py "schedule a Meeting tomorrow"))) _ H)).
  - split; [exact Hw |].
    exact (proj2 (proj2 (entities_within_tokens ascii_lower (py "   "))) Hw).
Defined.

Lemma media_words_music (w : pystr) : In w media_words -> In w music_words.
Proof. unfold media_words, music_words. simpl. tauto. Qed.

Lemma event_words_calendar (w : pystr) :
  In w event_words -> In w calendar_words.
Proof. unfold event_words, calendar_words. simpl. tauto. Qed.

(** The lower-cased token of an entity occurs in the lower-cased text. *)
Lemma token_occurs_lowered (lower : pystr -> pystr) (text tok : pystr) :
  LowerOnAscii lower -> is_ascii text -> In tok (split text) ->
  substring (lower tok) (lower text).
Proof.
  intros Hl Ha Hin. apply split_substring in Hin.
  rewrite (Hl text Ha), (Hl tok (substring_ascii Hin Ha)).
  apply substring_ascii_lower. exact Hin.
Qed.

(** X11.  Classifier and extractor agree on a text of ASCII characters:
    when a media entity is found the intent is music_control, and when an
    event entity is found the intent is music_control or
    calendar_management; so a reply with an entity never has one of the
    other four intents. *)
Theorem entities_fix_intent (lower : pystr -> pystr) (request : IntentRequest)
    (s : Registry) (r : IntentResponse) :
  LowerOnAscii lower ->
  is_ascii (text request) ->
  eval (process_intent lower request) s = Returned r ->
  (forall e, In e (entities r) -> ent_type e = py "media_type" ->
             intent r = py "music_control") /\
  (forall e, In e (entities r) -> ent_type e = py "event_type" ->
             intent r = py "music_control" \/
             intent r = py "calendar_management") /\
  (entities r <> [] ->
   intent r = py "music_control" \/ intent r = py "calendar_management").
Proof.
  intros Hl Ha Hr. unfold eval in Hr. rewrite process_intent_run in Hr.
  cbn [fst] in Hr. injection Hr as <-. cbn [entities intent].
  assert (Hmedia : forall e, In e (extract_entities lower (text request)) ->
            ent_type e = py "media_type" ->
            classify_intent lower (text request) = py "music_control").
  { intros e He Ht. apply In_extract_loop in He.
    destruct He as (j & tok & Hj & [[Hw _] | [_ Ht']] & _);
      [| rewrite Ht in Ht'; discriminate Ht'].
    assert (Ho : some_word_occurs music_words (lower (text request))).
    { exists (lower tok). split; [apply media_words_music; exact Hw |].
      apply token_occurs_lowered; [exact Hl | exact Ha |].
      eapply nth_error_In. exact Hj. }
    apply any_word_in_occurs in Ho. unfold classify_intent.
    rewrite Ho. reflexivity. }
  assert (Hevent : forall e, In e (extract_entities lower (text request)) ->
            ent_type e = py "event_type" ->
            classify_intent lower (text request) = py "music_control" \/
            classify_intent lower (text request) = py "calendar_management").
  { intros e He Ht. apply In_extract_loop in He.
    destruct He as (j & tok & Hj & [[_ Ht'] | [Hw _]] & _);
      [rewrite Ht in Ht'; discriminate Ht' |].
    assert (Ho : some_word_occurs calendar_words (lower (text request))).
    { exists (lower tok). split; [apply event_words_calendar; exact Hw |].
      apply token_occurs_lowered; [exact Hl | exact Ha |].
      eapply nth_error_In. exact Hj. }
    apply any_word_in_occurs in Ho. unfold classify_intent.
    rewrite Ho. destruct (any_word_in music_words _); auto. }
  split; [exact Hmedia |]. split; [exact Hevent |].
  intros Hne. destruct (extract_entities lower (text request)) as [|e l] eqn:E;
    [congruence |].
  assert (He : In e (e :: l)) by (left; reflexivity).
  pose proof He as He'. rewrite <- E in He'. apply In_extract_loop in He'.
  destruct He' as (j & tok & _ & [[_ Ht] | [_ Ht]] & _).
  - left. exact (Hmedia e He Ht).
  - exact (Hevent e He Ht).
Qed.

Lemma entities_fix_intent_witness :
  let request := {| text := py "Put that SONG on"; context := None;
                    user_id := None; session_id := None |} in
  LowerOnAscii ascii_lower /\ is_ascii (text request) /\
  exists r, eval (process_intent ascii_lower request) [] = Returned r /\
            entities r <> [] /\
            (intent r = py "music_control" \/
             intent r = py "calendar_management").
Proof.
  intros request.
  assert (Ha : is_ascii (text request))
    by (apply is_ascii_check; reflexivity).
  split; [exact LowerOnAscii_ascii_lower |]. split; [exact Ha |].
  pose (r := {| intent := classify_intent ascii_lower (text request);
                confidence := 0.8%Q;
                entities := extract_entities ascii_lower (text request);
                response := py "I understand you want to music_control. Let me help you with that.";
                plugin_id := None |}).
  assert (Hr : eval (process_intent ascii_lower request) [] = Returned r)
    by reflexivity.
  assert (Hne : entities r <> []) by (vm_compute; discriminate).
  exists r. split; [exact Hr |]. split; [exact Hne |].
  exact (proj2 (proj2 (@entities_fix_intent ascii_lower request [] r
                         LowerOnAscii_ascii_lower Ha Hr)) Hne).
Defined.

Lemma isspace_ascii_lower_char (c : char) :
  isspace (ascii_lower_char c) = isspace c.
Proof.
  unfold ascii_lower_char.
  destruct ((65 <=? c)%N && (c <=? 90)%N) eqn:E; [| reflexivity].
  apply andb_true_iff in E. destruct E as [Hlo Hhi].
  apply N.leb_le in Hlo, Hhi. unfold isspace.
  repeat match goal with
    | |- context [(?a <=? ?b)%N] =>
        first [ replace (a <=? b)%N with false
                  by (symmetry; apply N.leb_gt; lia)
              | replace (a <=? b)%N with true
                  by (symmetry; apply N.leb_le; lia) ]
    | |- context [(?a =? ?b)%N] =>
        replace (a =? b)%N with false by (symmetry; apply N.eqb_neq; lia)
    end.
  reflexivity.
Qed.

Lemma split_from_ascii_lower (s : pystr) :
  forall cur,
    split_from (ascii_lower cur) (ascii_lower s) =
      map ascii_lower (split_from cur s).
Proof.
  unfold ascii_lower. induction s as [|c s IH]; intros cur; simpl.
  - destruct cur; reflexivity.
  - rewrite isspace_ascii_lower_char. destruct (isspace c).
    + destruct cur as [|x cur]; simpl; [apply (IH []) |].
      f_equal. apply (IH []).
    + rewrite <- IH, map_app. reflexivity.
Qed.

Lemma split_ascii (text : pystr) :
  is_ascii text -> Forall is_ascii (split text).
Proof.
  intros Ha. apply Forall_forall. intros tok Hin.
  exact (substring_ascii (split_substring _ _ Hin) Ha).
Qed.

Lemma extract_loop_shapes (words1 : list pystr) :
  forall words2 i acc1 acc2,
    map ascii_lower words1 = map ascii_lower words2 ->
    map shape acc1 = map shape acc2 ->
    map shape (extract_loop ascii_lower i words1 acc1) =
      map shape (extract_loop ascii_lower i words2 acc2).
Proof.
  induction words1 as [|w1 words1 IH]; intros [|w2 words2] i acc1 acc2 Hw Ha;
    try discriminate Hw; [exact Ha |].
  injection Hw as Hw1 Hw. cbn [extract_loop]. rewrite Hw1.
  destruct (str_in (ascii_lower w2) media_words);
    [| destruct (str_in (ascii_lower w2) event_words)];
    apply IH; try exact Hw; try exact Ha;
    rewrite !map_app, Ha; reflexivity.
Qed.

(** X12.  Letter case does not matter on text of ASCII characters: two
    texts that differ only in the case of their letters get the same
    intent, and their entities have the same types, starts and ends (the
    values are the tokens as each text writes them). *)
Theorem letter_case_ignored (lower : pystr -> pystr) (text1 text2 : pystr) :
  LowerOnAscii lower ->
  is_ascii text1 -> is_ascii text2 ->
  ascii_lower text1 = ascii_lower text2 ->
  classify_intent lower text1 = classify_intent lower text2 /\
  map shape (extract_entities lower text1) =
    map shape (extract_entities lower text2).
Proof.
  intros Hl H1 H2 E. split.
  - rewrite (@classify_intent_ascii lower text1 Hl H1),
            (@classify_intent_ascii lower text2 Hl H2).
    unfold classify_intent. rewrite E. reflexivity.
  - rewrite (@extract_entities_ascii lower text1 Hl (split_ascii H1)),
            (@extract_entities_ascii lower text2 Hl (split_ascii H2)).
    unfold extract_entities. apply extract_loop_shapes; [| reflexivity].
    unfold split.
    rewrite <- (split_from_ascii_lower text1 []),
            <- (split_from_ascii_lower text2 []), E.
    reflexivity.
Qed.

Lemma letter_case_ignored_witness :
  LowerOnAscii ascii_lower /\
  is_ascii (py "Play the MUSIC now") /\ is_ascii (py "play The music NOW") /\
  ascii_lower (py "Play the MUSIC now") = ascii_lower (py "play The music NOW") /\
  classify_intent ascii_lower (py "Play the MUSIC now") =
    classify_intent ascii_lower (py "play The music NOW") /\
  map shape (extract_entities ascii_lower (py "Play the MUSIC now")) =
    map shape (extract_entities ascii_lower (py "play The music NOW")).
Proof.
  assert (H1 : is_ascii (py "Play the MUSIC now"))
    by (apply is_ascii_check; reflexivity).
  assert (H2 : is_ascii (py "play The music NOW"))
    by (apply is_ascii_check; reflexivity).
  assert (E : ascii_lower (py "Play the MUSIC now")
              = ascii_lower (py "play The music NOW")) by reflexivity.
  split; [exact LowerOnAscii_ascii_lower |]. split; [exact H1 |].
  split; [exact H2 |]. split; [exact E |].
  exact (letter_case_ignored LowerOnAscii_ascii_lower H1 H2 E).
Defined.

(* ===================================================================== *)
(** * From registration to the reply *)
(* ===================================================================== *)

(** X13.  Registration and intent processing together: once a plugin with
    an id that is not empty is registered with the intent of a text among
    its capabilities, and no plugin under another id declares that intent,
    POST /intent for the text answers with that plugin id and with the
    "Processing" sentence that names the intent and the plugin. *)
Theorem registered_plugin_processes (lower : pystr -> pystr)
    (plugin : PluginRegistration) (request : IntentRequest) (s : Registry) :
  let intent := classify_intent lower (text request) in
  reg_id plugin <> [] ->
  In intent (reg_capabilities plugin) ->
  (forall k info, In (k, info) s -> k <> reg_id plugin ->
                  ~ declares intent info) ->
  eval (process_intent lower request) (exec (register_plugin plugin) s) =
    Returned
      {| intent := intent;
         confidence := 0.8%Q;
         entities := extract_entities lower (text request);
         response := py "Processing " ++ intent ++ py " using plugin " ++
                     reg_id plugin;
         plugin_id := Some (reg_id plugin) |}.
Proof.
  intros intent Hid Hcap Hothers. unfold eval.
  rewrite process_intent_run, register_plugin_exec. cbn [fst]. fold intent.
  destruct (@route_loop_setitem intent (reg_id plugin) (info_of plugin) s Hcap)
    as (q & pre & info' & post & Hr & _ & Hi & _ & Hq).
  assert (Eq : q = reg_id plugin).
  { destruct Hq as [-> | [Hin _]]; [reflexivity |].
    destruct (list_eq_dec N.eq_dec q (reg_id plugin)) as [E | E];
      [exact E | destruct (Hothers q info' Hin E Hi)]. }
  rewrite Hr, Eq. destruct (reg_id plugin) as [|c p]; [congruence |].
  reflexivity.
Qed.

Lemma registered_plugin_processes_witness :
  let p1 := {| reg_id := py "P1"; reg_name := py "Player";
               reg_version := py "1.0"; reg_description := py "plays music";
               reg_capabilities := [py "music_control"];
               reg_endpoint := py "http://localhost:9000" |} in
  let request := {| text := py "Play some jazz"; context := None;
                    user_id := None; session_id := None |} in
  reg_id p1 <> [] /\
  In (classify_intent ascii_lower (text request)) (reg_capabilities p1) /\
  exists r,
    eval (process_intent ascii_lower request) (exec (register_plugin p1) [])
      = Returned r /\
    plugin_id r = Some (py "P1") /\
    response r = py "Processing music_control using plugin P1".
Proof.
  intros p1 request.
  assert (Hid : reg_id p1 <> []) by discriminate.
  assert (Hcap : In (classify_intent ascii_lower (text request))
                    (reg_capabilities p1)) by (left; reflexivity).
  split; [exact Hid |]. split; [exact Hcap |].
  eexists. split.
  - apply (@registered_plugin_processes ascii_lower p1 request [] Hid Hcap).
    intros k info [].
  - split; reflexivity.
Defined.

(** X14.  The plugin id of a reply of POST /intent names a plugin that
    GET /plugins lists and that declares the intent of the reply; a reply
    without plugin id means that no listed plugin declares the intent. *)
Theorem reply_plugin_is_listed (lower : pystr -> pystr)
    (request : IntentRequest) (s : Registry) (r : IntentResponse) :
  registry_ok s ->
  eval (process_intent lower request) s = Returned r ->
  exists plugins,
    eval get_plugins s = Returned plugins /\
    (forall q, plugin_id r = Some q ->
       exists info, In info plugins /\ id info = q /\
                    In (intent r) (capabilities info)) /\
    (plugin_id r = None ->
       forall info, In info plugins -> ~ In (intent r) (capabilities info)).
Proof.
  intros [_ Hrec] Hr. unfold eval in *.
  rewrite process_intent_run in Hr. cbn [fst] in Hr. injection Hr as <-.
  rewrite get_plugins_run. cbn [fst plugin_id intent].
  eexists. split; [reflexivity |]. split.
  - intros q Hq. apply route_loop_sound in Hq.
    destruct Hq as (pre & info & post & E & Hi & _).
    assert (Hin : In (q, info) s) by (rewrite E; apply in_elt).
    exists info. split; [| split; [apply (Hrec q info Hin) | exact Hi]].
    apply in_map_iff. exists (q, info). auto.
  - intros Hn info Hin. apply in_map_iff in Hin.
    destruct Hin as ([k info'] & <- & Hin).
    rewrite route_loop_none in Hn. exact (Hn k info' Hin).
Qed.

Lemma reply_plugin_is_listed_witness :
  let p1 := {| reg_id := py "P1"; reg_name := py "Player";
               reg_version := py "1.0"; reg_description := py "plays music";
               reg_capabilities := [py "music_control"];
               reg_endpoint := py "http://localhost:9000" |} in
  let s := [(py "P1", info_of p1)] in
  let request := {| text := py "Play some jazz"; context := None;
                    user_id := None; session_id := None |} in
  let r := {| intent := py "music_control"; confidence := 0.8%Q;
              entities := [];
              response := py "Processing music_control using plugin P1";
              plugin_id := Some (py "P1") |} in
  registry_ok s /\
  eval (process_intent ascii_lower request) s = Returned r /\
  exists plugins, eval get_plugins s = Returned plugins /\
    exists info, In info plugins /\ id info = py "P1" /\
                 In (py "music_control") (capabilities info).
Proof.
  intros p1 s request r.
  assert (Hok : registry_ok s).
  { split; [repeat constructor; simpl; tauto |].
    intros k info [[= <- <-] | []]. split; reflexivity. }
  assert (Hr : eval (process_intent ascii_lower request) s = Returned r)
    by reflexivity.
  split; [exact Hok |]. split; [exact Hr |].
  destruct (@reply_plugin_is_listed ascii_lower request s r Hok Hr)
    as (plugins & Hl & Hsome & _).
  exists plugins. split; [exact Hl |]. exact (Hsome (py "P1") eq_refl).
Defined.

(* ===================================================================== *)
(** * Timestamps of the health responses *)
(* ===================================================================== *)

Module HealthStamps.
Import Health.

Lemma health_calls_stamps (now : Clock) (k : nat) :
  forall n,
    Forall (fun r => exists m, n <= m /\
                       uptime r = total_seconds (now m - start_time now)%Z /\
                       timestamp r = now (S m))
           (health_calls now k n).
Proof.
  induction k as [|k IH]; intros n; simpl; constructor.
  - exists n. repeat split. lia.
  - eapply Forall_impl; [| apply IH].
    intros r (m & Hm & E). exists m. split; [lia | exact E].
Qed.

(** X15.  When the readings of the wall clock never go back, the timestamps
    of successive health responses never go back either, and a response
    never reports more uptime than the time from the start to its own
    timestamp. *)
Theorem timestamps_follow_uptime (now : Clock) (k : nat) :
  monotone_clock now ->
  StronglySorted Z.le (map timestamp (health_run now k)) /\
  Forall (fun r => (uptime r <=
                    total_seconds (timestamp r - start_time now)%Z)%Q)
         (health_run now k).
Proof.
  intros Hmono. unfold health_run. split.
  - generalize 1. induction k as [|k IH]; intros n; simpl; constructor.
    + apply IH.
    + apply Forall_forall. intros t Ht. apply in_map_iff in Ht.
      destruct Ht as (r & <- & Hr).
      pose proof (health_calls_stamps now k (S (S n))) as Hall.
      rewrite Forall_forall in Hall.
      destruct (Hall r Hr) as (m & Hm & _ & ->).
      apply Hmono. lia.
  - eapply Forall_impl; [| apply health_calls_stamps].
    intros r (m & _ & -> & ->). unfold total_seconds, Qle. simpl.
    specialize (Hmono m (S m)). lia.
Qed.

Lemma timestamps_follow_uptime_witness :
  monotone_clock ticking_clock /\
  StronglySorted Z.le (map timestamp (health_run ticking_clock 3)) /\
  Forall (fun r => (uptime r <=
                    total_seconds (timestamp r - start_time ticking_clock)%Z)%Q)
         (health_run ticking_clock 3).
Proof.
  assert (H : monotone_clock ticking_clock)
    by (intros n m Hnm; unfold ticking_clock; lia).
  split; [exact H |].
  exact (timestamps_follow_uptime 3 H).
Defined.

End HealthStamps.
